(** * Photon tracing (integrator.h) and the surface shading adapter (primitive.h)

    A shallow embedding of [PhotonMapping::build], [PhotonMapping::integrate]
    and of the methods of [Primitive], with the properties of the design
    document stated over it.

    Conventions.
    - A C++ [float] is an IEEE 754 binary32 value: [spec_float] with
      precision 24 and maximal exponent 128, computed by the operations of
      [SpecFloat] (round to nearest even, one NaN).
    - An out-parameter becomes a component of the result; a [Sampler&] that a
      call may advance is threaded through explicitly.
    - Abstract classes reached through pointers ([Light], [BxDF], the hit
      primitive, [Scene]) are records of their methods.
    - The [omp parallel for] over the photon index is read as the sequential
      loop it annotates (what the compiler produces without OpenMP); the
      statements about a single walk hold for every sampler state the walk
      may start from. *)

From Stdlib Require Import ZArith Bool SpecFloat Lia.
From stdpp Require Import base list.

Set Implicit Arguments.

(** ** binary32 arithmetic *)

Module F32.

Definition prec : Z := 24.
Definition emax : Z := 128.

Definition float : Type := spec_float.

Definition zero : float := S754_zero false.
Definition one : float := Eval cbv in SFone prec emax.
Definition inf : float := S754_infinity false.

Definition mul : float -> float -> float := SFmul prec emax.
Definition div : float -> float -> float := SFdiv prec emax.
Definition add : float -> float -> float := SFadd prec emax.
Definition neg : float -> float := SFopp.

(** [std::abs] *)
Definition abs : float -> float := SFabs.

(** [a < b] and [a >= b]; both are false when an operand is NaN. *)
Definition lt (a b : float) : bool := SFltb a b.
Definition ge (a b : float) : bool := SFleb b a.

(** [std::max(a, b)] is [(a < b) ? b : a] and [std::min(a, b)] is
    [(b < a) ? b : a]. *)
Definition max (a b : float) : float := if lt a b then b else a.
Definition min (a b : float) : float := if lt b a then b else a.

(** The conversion of an [int] to [float]. *)
Definition of_Z (z : Z) : float := binary_normalize prec emax z 0 false.

Definition is_nan (x : float) : bool :=
  match x with S754_nan => true | _ => false end.
Definition is_inf (x : float) : bool :=
  match x with S754_infinity _ => true | _ => false end.

(** [x < 0] *)
Definition is_neg (x : float) : bool := lt x zero.

(** The sign bit is clear, or the value is NaN: such a value is never below
    zero, and products and quotients of such values are such values again. *)
Definition sign_clear (x : float) : bool :=
  match x with
  | S754_nan => true
  | S754_zero s | S754_infinity s | S754_finite s _ _ => negb s
  end.

End F32.

Abbreviation float := F32.float.

(** ** Vectors, rays, surface records (core.h) *)

(** Modelled from the spec: core.h, which declares [Vec3] ([Vec3f] in
    primitive.h), is not among the sources. A vector is three floats;
    [throughput[0]], [[1]], [[2]] are [vx], [vy], [vz]. *)
Record Vec3 : Type := mkVec3 { vx : float; vy : float; vz : float }.

(** Modelled from the spec: the constructor [Vec3(x)] and the operators of
    core.h, taken componentwise: [-v], [v * w], [v * k], [v / k]. *)
Definition Vec3_fill (x : float) : Vec3 := mkVec3 x x x.
Definition vneg (v : Vec3) : Vec3 :=
  mkVec3 (F32.neg (vx v)) (F32.neg (vy v)) (F32.neg (vz v)).
Definition vmul (v w : Vec3) : Vec3 :=
  mkVec3 (F32.mul (vx v) (vx w)) (F32.mul (vy v) (vy w)) (F32.mul (vz v) (vz w)).
Definition vscale (v : Vec3) (k : float) : Vec3 :=
  mkVec3 (F32.mul (vx v) k) (F32.mul (vy v) k) (F32.mul (vz v) k).
Definition vdiv (v : Vec3) (k : float) : Vec3 :=
  mkVec3 (F32.div (vx v) k) (F32.div (vy v) k) (F32.div (vz v) k).

(** Modelled from the spec: [dot] of core.h, the three products summed from
    left to right. *)
Definition dot (v w : Vec3) : float :=
  F32.add (F32.add (F32.mul (vx v) (vx w)) (F32.mul (vy v) (vy w)))
          (F32.mul (vz v) (vz w)).

(** A property of all three components, and of one of them. *)
Definition vall (P : float -> bool) (v : Vec3) : bool :=
  P (vx v) && P (vy v) && P (vz v).
Definition vany (P : float -> bool) (v : Vec3) : bool :=
  P (vx v) || P (vy v) || P (vz v).

(** Modelled from the spec: [Ray] of core.h, an origin and a direction. *)
Record Ray : Type := mkRay { origin : Vec3; direction : Vec3 }.

(** Modelled from the spec: [SurfaceInfo] of core.h, a position and the
    frame [(dpdu, normal, dpdv)] at it. *)
Record SurfaceInfo : Type := mkSurfaceInfo
  { position : Vec3; normal : Vec3; dpdu : Vec3; dpdv : Vec3 }.

(** Modelled from the spec: [BxDFType] of material.h; the enumeration
    separates [DIFFUSE] from the other reflectance classes. *)
Inductive BxDFType : Type := DIFFUSE | SPECULAR.

(** Modelled from the spec: [Photon] of photon_map.h, the record of the
    arguments of [Photon(throughput, position, wi)]. *)
Record Photon : Type := mkPhoton
  { power : Vec3; photon_position : Vec3; incomingDirection : Vec3 }.

(** [DirectionPair], a [std::pair] of a direction and its weight. *)
Abbreviation DirectionPair := (Vec3 * float)%type.

(** ** Collaborators reached through pointers

    [Sampler] is an abstract class; a sampler is a state of some type
    [Sampler], and every call that receives [Sampler&] returns the state it
    leaves behind. *)

Module BxDF.

(** Modelled from the spec: [BxDF] of material.h, by the calls primitive.h
    makes. [sampleDirection(wo, sampler, wi, pdf)] returns the value [f] and
    writes [wi] and [pdf]: the result is [(f, wi, pdf, sampler')]. *)
Record t (Sampler : Type) : Type := mk
  { getType : BxDFType;
    evaluate : Vec3 -> Vec3 -> Vec3;
    sampleDirection : Vec3 -> Sampler -> Vec3 * Vec3 * float * Sampler;
    sampleAllDirection : Vec3 -> list DirectionPair }.

End BxDF.

Module Light.

(** Modelled from the spec: [Light] of light.h, by the calls of [build].
    [samplePoint(sampler, pdf)] and [sampleDirection(surf, sampler, pdf)]
    return the sample, with the density written to [pdf] beside it. *)
Record t (Sampler : Type) : Type := mk
  { samplePoint : Sampler -> SurfaceInfo * float * Sampler;
    sampleDirection : SurfaceInfo -> Sampler -> Vec3 * float * Sampler;
    Le : SurfaceInfo -> Vec3 -> Vec3 }.

End Light.

(** ** primitive.h *)

Module Primitive.
Section Methods.

Context {Sampler Triangle : Type}.

(** [worldToLocal(v, lx, ly, lz)] and [localToWorld(v, lx, ly, lz)] are
    declared in core.h, which is not among the sources, and the design
    document gives no formula for them: the methods take them as they come. *)
Variables worldToLocal localToWorld : Vec3 -> Vec3 -> Vec3 -> Vec3 -> Vec3.

(** The members; a null [areaLight] is [None]. *)
Record t : Type := mk
  { triangle : Triangle;
    bxdf : BxDF.t Sampler;
    areaLight : option (Light.t Sampler) }.

Definition hasAreaLight (p : t) : bool :=
  match areaLight p with Some _ => true | None => false end.

(** [areaLight->Le(surfInfo, dir)]; dereferencing the null pointer has no
    defined result, hence [None]. *)
Definition Le (p : t) (surfInfo : SurfaceInfo) (dir : Vec3) : option Vec3 :=
  match areaLight p with
  | Some l => Some (Light.Le l surfInfo dir)
  | None => None
  end.

Definition getBxDFType (p : t) : BxDFType := BxDF.getType (bxdf p).


(** Returns [(f, wi, pdf, sampler')]. *)
Definition sampleBxDF (p : t) (wo : Vec3) (surfInfo : SurfaceInfo)
    (sampler : Sampler) : Vec3 * Vec3 * float * Sampler :=
  let wo_l := worldToLocal wo (dpdu surfInfo) (normal surfInfo) (dpdv surfInfo) in
  let '(f, wi_l, pdf, sampler') := BxDF.sampleDirection (bxdf p) wo_l sampler in
  let wi := localToWorld wi_l (dpdu surfInfo) (normal surfInfo) (dpdv surfInfo) in
  (f, wi, pdf, sampler').

(** The body of [for (auto& dp : dir_pairs)]: the element at position [j]
    is overwritten in place, its [first] replaced and its [second] kept. *)
Definition to_world_at (surfInfo : SurfaceInfo) (dir_pairs : list DirectionPair)
    (j : nat) : list DirectionPair :=
  alter (fun dp : DirectionPair =>
           (localToWorld (fst dp) (dpdu surfInfo) (normal surfInfo) (dpdv surfInfo),
            snd dp))
        j dir_pairs.

(** The loop visits the positions of the vector from first to last. *)
Definition sampleAllBxDF (p : t) (wo : Vec3) (surfInfo : SurfaceInfo)
    : list DirectionPair :=
  let wo_l := worldToLocal wo (dpdu surfInfo) (normal surfInfo) (dpdv surfInfo) in
  let dir_pairs := BxDF.sampleAllDirection (bxdf p) wo_l in
  foldl (to_world_at surfInfo) dir_pairs (seq 0 (length dir_pairs)).

End Methods.
End Primitive.

(** ** integrator.h *)

(** What [build] asks of [info.hitPrimitive]: its class, and
    [sampleBRDF(wo, surfInfo, sampler, dir, pdf_dir)], which returns [f] and
    writes [dir] and [pdf_dir]: the result is [(f, dir, pdf_dir, sampler')]. *)
Record HitPrimitive (Sampler : Type) : Type := mkHitPrimitive
  { getBxDFType : BxDFType;
    sampleBRDF : Vec3 -> SurfaceInfo -> Sampler -> Vec3 * Vec3 * float * Sampler }.

(** A [Primitive] of primitive.h seen from [build]: the sampling method that
    integrator.h calls [sampleBRDF] is the one primitive.h declares with
    this signature, [sampleBxDF]. *)
Definition hit_of_primitive {Sampler Triangle : Type}
    (worldToLocal localToWorld : Vec3 -> Vec3 -> Vec3 -> Vec3 -> Vec3)
    (p : @Primitive.t Sampler Triangle) : HitPrimitive Sampler :=
  {| getBxDFType := Primitive.getBxDFType p;
     sampleBRDF := Primitive.sampleBxDF worldToLocal localToWorld p |}.

(** Modelled from the spec: [IntersectInfo] of core.h, the surface record of
    the hit and the primitive that was hit. *)
Record IntersectInfo (Sampler : Type) : Type := mkIntersectInfo
  { surfaceInfo : SurfaceInfo;
    hitPrimitive : HitPrimitive Sampler }.

Module Scene.

(** Modelled from the spec: [Scene] of scene.h, by the calls of [build].
    [sampleLight(sampler, pdf)] returns the light, with the density written
    to [pdf] beside it; [intersect(ray, info)] returns whether there is a
    hit and fills [info] when there is one. *)
Record t (Sampler : Type) : Type := mk
  { sampleLight : Sampler -> Light.t Sampler * float * Sampler;
    intersect : Ray -> option (IntersectInfo Sampler) }.

End Scene.

Module PhotonMap.

(** Modelled from the spec: [PhotonMap] of photon_map.h. The store is
    append-only while photons are traced, then finalised by an explicit
    build step: a list of photons in insertion order and a flag. *)
Record t : Type := mk { photons : list Photon; built : bool }.
Definition empty : t := mk [] false.
Definition addPhoton (m : t) (p : Photon) : t := mk (photons m ++ [p]) (built m).
Definition build (m : t) : t := mk (photons m) true.

End PhotonMap.

(** How a call ends: with its result, or with an exception that reaches the
    caller. The exception [build] can meet is the one the constructor of
    [std::vector] throws for a length it cannot provide. *)
Inductive Exn : Type := length_error.
Inductive Outcome (A : Type) : Type :=
  | Returned (a : A)
  | Thrown (e : Exn).
Arguments Thrown {A} e.

Definition threw {A : Type} (o : Outcome A) : bool :=
  match o with Thrown _ => true | Returned _ => false end.

(** The abstract class [Integrator]: [build], then [integrate]. *)
Module Integrator.

Class t (Sampler I : Type) : Type :=
  { build : I -> Scene.t Sampler -> Sampler -> Outcome (I * Sampler);
    integrate : I -> Ray -> Scene.t Sampler -> Sampler -> Outcome (Vec3 * Sampler) }.

End Integrator.

Module PhotonMapping.

(** The members; an [int] is read as the integer it holds. *)
Record t : Type := mk
  { nPhotons : Z;
    nDensityEstimation : Z;
    maxDepth : Z;
    photonMap : PhotonMap.t }.

(** [PhotonMapping(nPhotons, nDensityEstimation, maxDepth = 100)] *)
Definition new (nPhotons nDensityEstimation maxDepth : Z) : t :=
  mk nPhotons nDensityEstimation maxDepth PhotonMap.empty.
Definition default_maxDepth : Z := 100.

Definition getPhotonMapPtr (pm : t) : PhotonMap.t := photonMap pm.

Section WithSampler.

Context {Sampler : Type}.

(** [sampler.getNext1D()] *)
Variable getNext1D : Sampler -> float * Sampler.

Variable scene : Scene.t Sampler.

(** The variables a walk works on: [ray], [throughput], the array [photons]
    and the sampler. *)
Record Walk : Type := mkWalk
  { ray : Ray;
    throughput : Vec3;
    photons : list (option Photon);
    sampler : Sampler }.

(** The two [break]s of the bounce loop. *)
Inductive Cause : Type := Roulette | Sky.

(** The body of the bounce loop either runs to its end or breaks. *)
Inductive Step : Type :=
  | Next (w : Walk)
  | Break (c : Cause) (w : Walk).

(** Lines 59-61: [Le / (light_choose_pdf * light_pos_pdf) * |dot|]. *)
Definition initial_throughput (le : Vec3) (light_choose_pdf light_pos_pdf : float)
    (dir normal : Vec3) : Vec3 :=
  vscale (vdiv le (F32.mul light_choose_pdf light_pos_pdf))
         (F32.abs (dot dir normal)).

(** Lines 43-61: the light, the point and the direction are sampled and the
    ray is spawned. *)
Definition emit (photons : list (option Photon)) (sampler : Sampler) : Walk :=
  let '(light, light_choose_pdf, sampler) := Scene.sampleLight scene sampler in
  let '(light_surf, light_pos_pdf, sampler) := Light.samplePoint light sampler in
  let '(dir, light_dir_pdf, sampler) := Light.sampleDirection light light_surf sampler in
  {| ray := mkRay (position light_surf) dir;
     throughput := initial_throughput (Light.Le light light_surf dir)
                     light_choose_pdf light_pos_pdf dir (normal light_surf);
     photons := photons;
     sampler := sampler |}.

(** Lines 78-80. *)
Definition russian_roulette_prob (throughput : Vec3) : float :=
  F32.min (F32.max (vx throughput) (F32.max (vy throughput) (vz throughput)))
          F32.one.

(** Lines 77-85; [None] is the [break]. *)
Definition russian_roulette (k : nat) (throughput : Vec3) (sampler : Sampler)
    : option Vec3 * Sampler :=
  if (0 <? k)%nat then
    let p := russian_roulette_prob throughput in
    let '(u, sampler) := getNext1D sampler in
    if F32.ge u p then (None, sampler) else (Some (vdiv throughput p), sampler)
  else (Some throughput, sampler).

(** Lines 69-74: [photons[i] = Photon(...)] on a diffuse surface; the
    assignment writes position [i] of the array ([i] is below its length in
    [build]). *)
Definition deposit (i : nat) (info : IntersectInfo Sampler) (w : Walk)
    : list (option Photon) :=
  match getBxDFType (hitPrimitive info) with
  | DIFFUSE =>
      <[i := Some (mkPhoton (throughput w) (position (surfaceInfo info))
                            (vneg (direction (ray w))))]> (photons w)
  | _ => photons w
  end.

(** Lines 87-96: a direction is sampled from the hit primitive, then
    [throughput *= f * |dot(dir, normal)| / pdf_dir] and the ray is
    respawned at the hit. [r] is the ray that arrived. *)
Definition scatter (info : IntersectInfo Sampler) (r : Ray) (throughput : Vec3)
    (photons : list (option Photon)) (sampler : Sampler) : Walk :=
  let '(f, dir, pdf_dir, sampler) :=
    sampleBRDF (hitPrimitive info) (vneg (direction r)) (surfaceInfo info) sampler in
  {| ray := mkRay (position (surfaceInfo info)) dir;
     throughput :=
       vmul throughput
            (vdiv (vscale f (F32.abs (dot dir (normal (surfaceInfo info))))) pdf_dir);
     photons := photons;
     sampler := sampler |}.

(** Lines 67-100: the body of the bounce loop for photon [i] at depth [k]. *)
Definition bounce (i k : nat) (w : Walk) : Step :=
  match Scene.intersect scene (ray w) with
  | Some info =>
      let photons := deposit i info w in
      match russian_roulette k (throughput w) (sampler w) with
      | (None, sampler) =>
          Break Roulette
            {| ray := ray w; throughput := throughput w;
               photons := photons; sampler := sampler |}
      | (Some throughput, sampler) =>
          Next (scatter info (ray w) throughput photons sampler)
      end
  | None => Break Sky w
  end.

(** The variables after the body ran, whichever way it ended. *)
Definition reached (s : Step) : Walk :=
  match s with Next w | Break _ w => w end.

(** How the bounce loop was left ([None]: its condition [k < maxDepth]
    failed), how many times its body ran, and the variables at that point. *)
Record Finish : Type := mkFinish
  { cause : option Cause;
    iterations : nat;
    final : Walk }.

(** [for (int k = ...; k < maxDepth; ++k)] with [n] iterations left. *)
Fixpoint bounces (i n k : nat) (w : Walk) : Finish :=
  match n with
  | O => mkFinish None k w
  | S n' =>
      match bounce i k w with
      | Next w' => bounces i n' (S k) w'
      | Break c w' => mkFinish (Some c) (S k) w'
      end
  end.

(** Lines 43-101: the body of the photon loop for index [i]. *)
Definition walk (maxDepth : Z) (i : nat) (photons : list (option Photon))
    (sampler : Sampler) : Finish :=
  bounces i (Z.to_nat maxDepth) 0 (emit photons sampler).

(** The same as a step of the photon loop on the array and the sampler. *)
Definition tracePhoton (maxDepth : Z) (st : list (option Photon) * Sampler)
    (i : nat) : list (option Photon) * Sampler :=
  let w := final (walk maxDepth i (fst st) (snd st)) in
  (photons w, sampler w).

(** Lines 105-109. *)
Definition addPhotons (m : PhotonMap.t) (photons : list (option Photon))
    : PhotonMap.t :=
  foldl (fun m p => match p with
                    | Some x => PhotonMap.addPhoton m x
                    | None => m
                    end) m photons.

(** Lines 35-114. [std::vector<std::optional<Photon>> photons(nPhotons)]
    converts the [int] to the unsigned size type: a negative count becomes a
    length beyond [max_size()] and the constructor throws; otherwise the
    array holds [nPhotons] empty slots. *)
Definition build (pm : t) (sampler : Sampler) : Outcome (t * Sampler) :=
  if (nPhotons pm <? 0)%Z then Thrown length_error
  else
    let n := Z.to_nat (nPhotons pm) in
    let photons : list (option Photon) := replicate n None in
    let '(photons, sampler) :=
      foldl (tracePhoton (maxDepth pm)) (photons, sampler) (seq 0 n) in
    let photonMap := addPhotons (photonMap pm) photons in
    Returned (mk (nPhotons pm) (nDensityEstimation pm) (maxDepth pm)
                 (PhotonMap.build photonMap),
              sampler).

(** Lines 116-120: [return Vec3(0);] *)
Definition integrate (pm : t) (r : Ray) (sc : Scene.t Sampler) (sampler : Sampler)
    : Outcome (Vec3 * Sampler) :=
  Returned (Vec3_fill (F32.of_Z 0), sampler).

(** *** The course of a walk, for the statements below *)

(** The variables at the head of every iteration of the bounce loop that
    ran, in order. *)
Fixpoint visited (i n k : nat) (w : Walk) : list Walk :=
  match n with
  | O => []
  | S n' =>
      w :: match bounce i k w with
           | Next w' => visited i n' (S k) w'
           | Break _ _ => []
           end
  end.

(** What a diffuse hit looks like from the head of an iteration: the ray
    meets a surface of class [DIFFUSE]; the photon of that hit carries the
    throughput at that moment, the position of the hit and the reversed
    direction of the ray. *)
Definition diffuse_hit (w : Walk) : option Photon :=
  match Scene.intersect scene (ray w) with
  | Some info =>
      match getBxDFType (hitPrimitive info) with
      | DIFFUSE =>
          Some (mkPhoton (throughput w) (position (surfaceInfo info))
                         (vneg (direction (ray w))))
      | _ => None
      end
  | None => None
  end.

(** The diffuse hits of walk [i], first to last. *)
Definition diffuse_hits (maxDepth : Z) (i : nat) (photons : list (option Photon))
    (sampler : Sampler) : list Photon :=
  omap diffuse_hit (visited i (Z.to_nat maxDepth) 0 (emit photons sampler)).

(** The array and the sampler before walk [i] of [build]. *)
Definition before_walk (maxDepth : Z) (n : nat) (sampler : Sampler) (i : nat)
    : list (option Photon) * Sampler :=
  foldl (tracePhoton maxDepth) (replicate n None, sampler) (seq 0 i).

(** The values a light hands out carry no minus sign: the density of the
    sampled point, and every component of the emitted radiance. *)
Definition light_sign_clear (l : Light.t Sampler) : Prop :=
  (forall s, F32.sign_clear (snd (fst (Light.samplePoint l s))) = true) /\
  (forall surf dir, vall F32.sign_clear (Light.Le l surf dir) = true).

(** The same for the scene: the density of the chosen light, the light
    itself, and for every primitive that a ray can hit the value [f] and the
    density [pdf_dir] of every sample. *)
Definition scene_sign_clear : Prop :=
  (forall s, F32.sign_clear (snd (fst (Scene.sampleLight scene s))) = true /\
             light_sign_clear (fst (fst (Scene.sampleLight scene s)))) /\
  (forall r info, Scene.intersect scene r = Some info ->
     forall wo si s,
       vall F32.sign_clear
            (fst (fst (fst (sampleBRDF (hitPrimitive info) wo si s)))) = true /\
       F32.sign_clear (snd (fst (sampleBRDF (hitPrimitive info) wo si s))) = true).

(** Every photon held by the array has a power without minus sign. *)
Definition photons_sign_clear (photons : list (option Photon)) : Prop :=
  forall j p, photons !! j = Some (Some p) -> vall F32.sign_clear (power p) = true.

(** *** More notions for the statements below *)

(** Two walk states that differ at most in the array. *)
Definition same_course (w1 w2 : Walk) : Prop :=
  ray w1 = ray w2 /\ throughput w1 = throughput w2 /\ sampler w1 = sampler w2.

(** The sampler a walk leaves behind and the photon it leaves in its slot,
    for a walk that starts from the sampler [start] (on the empty array, at
    index 0). *)
Definition sampler_after (maxDepth : Z) (start : Sampler) : Sampler :=
  sampler (final (walk maxDepth 0 [] start)).
Definition photon_of_walk (maxDepth : Z) (start : Sampler) : option Photon :=
  last (diffuse_hits maxDepth 0 [] start).

(** No ray meets a surface of class [DIFFUSE]. *)
Definition no_diffuse_surface : Prop :=
  forall r info, Scene.intersect scene r = Some info ->
                 getBxDFType (hitPrimitive info) <> DIFFUSE.

End WithSampler.

(** [class PhotonMapping : public Integrator] *)
#[export] Instance PhotonMapping_Integrator {Sampler : Type}
    (getNext1D : Sampler -> float * Sampler) : Integrator.t Sampler t :=
  {| Integrator.build := fun pm scene sampler => build getNext1D scene pm sampler;
     Integrator.integrate := integrate |}.

End PhotonMapping.

(** The same light, and the same scene, with the density that
    [sampleDirection] writes to [light_dir_pdf] replaced by [g] of it. *)
Definition light_with_dir_pdf {Sampler : Type} (g : float -> float)
    (l : Light.t Sampler) : Light.t Sampler :=
  Light.mk (Light.samplePoint l)
           (fun surf s =>
              let '(dir, pdf, s') := Light.sampleDirection l surf s in
              (dir, g pdf, s'))
           (Light.Le l).

Definition scene_with_dir_pdf {Sampler : Type} (g : float -> float)
    (sc : Scene.t Sampler) : Scene.t Sampler :=
  Scene.mk (fun s =>
              let '(l, pdf, s') := Scene.sampleLight sc s in
              (light_with_dir_pdf g l, pdf, s'))
           (Scene.intersect sc).

(** ** Concrete scenes

    Small closed inputs on which the definitions above are run. The sampler
    is the list of the numbers it will return, then zeros. *)

Module Examples.

Definition ListSampler : Type := list float.

Definition nextOf (s : ListSampler) : float * ListSampler :=
  match s with
  | u :: s' => (u, s')
  | [] => (F32.zero, [])
  end.

Definition half : float := Eval cbv in F32.div F32.one (F32.of_Z 2).
Definition quarter : float := Eval cbv in F32.div F32.one (F32.of_Z 4).

Definition v000 : Vec3 := Vec3_fill F32.zero.
Definition v111 : Vec3 := Vec3_fill F32.one.
Definition up : Vec3 := mkVec3 F32.zero F32.one F32.zero.
Definition down : Vec3 := vneg up.
Definition xaxis : Vec3 := mkVec3 F32.one F32.zero F32.zero.
Definition zaxis : Vec3 := mkVec3 F32.zero F32.zero F32.one.

(** A light at the origin that emits radiance (1,1,1) straight up; every
    density is 1. *)
Definition lamp_surface : SurfaceInfo := mkSurfaceInfo v000 up xaxis zaxis.
Definition lamp : Light.t ListSampler :=
  Light.mk (fun s => (lamp_surface, F32.one, s))
           (fun _ s => (up, F32.one, s))
           (fun _ _ => v111).

(** The floor (y = 0, facing up) and the ceiling (y = 1, facing down). *)
Definition floor_surface : SurfaceInfo := mkSurfaceInfo v000 up xaxis zaxis.
Definition ceiling_surface : SurfaceInfo := mkSurfaceInfo up down xaxis zaxis.

(** A diffuse sheet that scatters half of the light along [dir] with
    density 1. *)
Definition matte (dir : Vec3) : HitPrimitive ListSampler :=
  mkHitPrimitive DIFFUSE (fun _ _ s => (Vec3_fill half, dir, F32.one, s)).

(** A specular sheet whose sample comes with density [pdf]. *)
Definition mirror (dir : Vec3) (pdf : float) : HitPrimitive ListSampler :=
  mkHitPrimitive SPECULAR (fun _ _ s => (v111, dir, pdf, s)).

(** A ray that travels up hits the ceiling, a ray that travels down hits the
    floor, any other ray leaves the scene. *)
Definition between (floor ceiling : HitPrimitive ListSampler) (r : Ray)
    : option (IntersectInfo ListSampler) :=
  if F32.lt F32.zero (vy (direction r)) then
    Some (mkIntersectInfo ceiling_surface ceiling)
  else if F32.lt (vy (direction r)) F32.zero then
    Some (mkIntersectInfo floor_surface floor)
  else None.

(** Two diffuse sheets facing each other. *)
Definition box : Scene.t ListSampler :=
  Scene.mk (fun s => (lamp, F32.one, s)) (between (matte up) (matte down)).

(** A diffuse floor under a specular ceiling whose samples have density 0. *)
Definition degenerate : Scene.t ListSampler :=
  Scene.mk (fun s => (lamp, F32.one, s)) (between (matte up) (mirror down F32.zero)).

(** The same with a ceiling that reflects nothing: [f] is zero as well. *)
Definition dark : Scene.t ListSampler :=
  Scene.mk (fun s => (lamp, F32.one, s))
           (between (matte up)
                    (mkHitPrimitive SPECULAR (fun _ _ s => (v000, down, F32.zero, s)))).

(** Nothing to hit. *)
Definition void : Scene.t ListSampler :=
  Scene.mk (fun s => (lamp, F32.one, s)) (fun _ => None).

(** The walk of photon 0 in [box]: up to the ceiling, down to the floor. *)
Definition box_start : @PhotonMapping.Walk ListSampler :=
  PhotonMapping.emit box [None] [quarter].
Definition box_second : @PhotonMapping.Walk ListSampler :=
  PhotonMapping.reached (PhotonMapping.bounce nextOf box 0 0 box_start).
Definition ceiling_hit : Photon := mkPhoton v111 up down.
Definition floor_hit : Photon := mkPhoton (Vec3_fill half) v000 up.

(** The same walk in [degenerate]. *)
Definition degenerate_start : @PhotonMapping.Walk ListSampler :=
  PhotonMapping.emit degenerate [None] [quarter].
Definition degenerate_second : @PhotonMapping.Walk ListSampler :=
  PhotonMapping.reached (PhotonMapping.bounce nextOf degenerate 0 0 degenerate_start).

(** What [build] hands back for two photons of depth 2 in [box]. *)
Definition box_built : PhotonMapping.t * ListSampler :=
  match PhotonMapping.build nextOf box (PhotonMapping.new 2 0 2) [quarter; half] with
  | Returned x => x
  | Thrown _ => (PhotonMapping.new 2 0 2, [])
  end.

(** Two specular sheets facing each other; every density is 1. *)
Definition hall : Scene.t ListSampler :=
  Scene.mk (fun s => (lamp, F32.one, s))
           (between (mirror up F32.one) (mirror down F32.one)).


(** A camera ray. *)
Definition some_ray : Ray := mkRay v000 up.

End Examples.

(** Names the three samples that open a walk. *)
Ltac name_emission scene sampler :=
  let light := fresh "light" in
  let surf := fresh "surf" in
  let dir := fresh "dir" in
  let c := fresh "choose_pdf" in
  let q := fresh "pos_pdf" in
  let d := fresh "dir_pdf" in
  let s1 := fresh "s" in
  let s2 := fresh "s" in
  let s3 := fresh "s" in
  destruct (Scene.sampleLight scene sampler) as [[light c] s1]; cbn;
  destruct (Light.samplePoint light s1) as [[surf q] s2]; cbn;
  destruct (Light.sampleDirection light surf s2) as [[dir d] s3]; cbn.

(** * Properties *)

(** ** Signs in binary32 arithmetic *)

Section Signs.

Local Open Scope bool_scope.

Lemma sign_clear_round (m e : Z) (l : location) :
  F32.sign_clear (binary_round_aux F32.prec F32.emax false m e l) = true.
Proof.
  unfold binary_round_aux.
  destruct (shr_fexp _ _ m e l) as [mrs' e'].
  destruct (shr_fexp _ _ _ e' loc_Exact) as [mrs'' e''].
  destruct (shr_m mrs''); [reflexivity | | reflexivity].
  destruct (e'' <=? _)%Z; reflexivity.
Qed.

Lemma sign_clear_mul (x y : float) :
  F32.sign_clear x = true -> F32.sign_clear y = true ->
  F32.sign_clear (F32.mul x y) = true.
Proof.
  destruct x as [[]|[]| |[] mx ex], y as [[]|[]| |[] my ey];
    cbn; intros Hx Hy; try discriminate; try reflexivity.
  apply sign_clear_round.
Qed.

Lemma sign_clear_div (x y : float) :
  F32.sign_clear x = true -> F32.sign_clear y = true ->
  F32.sign_clear (F32.div x y) = true.
Proof.
  destruct x as [[]|[]| |[] mx ex], y as [[]|[]| |[] my ey];
    cbn; intros Hx Hy; try discriminate; try reflexivity.
  unfold F32.div, SFdiv.
  destruct (SFdiv_core_binary _ _ _ _ _ _) as [[mz ez] lz].
  apply sign_clear_round.
Qed.

Lemma sign_clear_abs (x : float) : F32.sign_clear (F32.abs x) = true.
Proof. destruct x; reflexivity. Qed.

Lemma sign_clear_max (x y : float) :
  F32.sign_clear x = true -> F32.sign_clear y = true ->
  F32.sign_clear (F32.max x y) = true.
Proof. unfold F32.max. destruct (F32.lt x y); auto. Qed.

Lemma sign_clear_min (x y : float) :
  F32.sign_clear x = true -> F32.sign_clear y = true ->
  F32.sign_clear (F32.min x y) = true.
Proof. unfold F32.min. destruct (F32.lt y x); auto. Qed.

(** A value whose sign bit is clear is not below zero. *)
Lemma sign_clear_not_neg (x : float) :
  F32.sign_clear x = true -> F32.is_neg x = false.
Proof. destruct x as [[]|[]| |[] m e]; cbn; intros H; try discriminate; reflexivity. Qed.

Lemma vall_intro (P : float -> bool) (v : Vec3) :
  P (vx v) = true -> P (vy v) = true -> P (vz v) = true -> vall P v = true.
Proof. unfold vall. intros -> -> ->. reflexivity. Qed.

Lemma vall_elim (P : float -> bool) (v : Vec3) :
  vall P v = true -> P (vx v) = true /\ P (vy v) = true /\ P (vz v) = true.
Proof.
  unfold vall. intros H.
  apply andb_true_iff in H as [H Hz]. apply andb_true_iff in H as [Hx Hy]. auto.
Qed.

Lemma sign_clear_vmul (v w : Vec3) :
  vall F32.sign_clear v = true -> vall F32.sign_clear w = true ->
  vall F32.sign_clear (vmul v w) = true.
Proof.
  intros (? & ? & ?)%vall_elim (? & ? & ?)%vall_elim.
  apply vall_intro; cbn; apply sign_clear_mul; assumption.
Qed.

Lemma sign_clear_vscale (v : Vec3) (k : float) :
  vall F32.sign_clear v = true -> F32.sign_clear k = true ->
  vall F32.sign_clear (vscale v k) = true.
Proof.
  intros (? & ? & ?)%vall_elim Hk.
  apply vall_intro; cbn; apply sign_clear_mul; assumption.
Qed.

Lemma sign_clear_vdiv (v : Vec3) (k : float) :
  vall F32.sign_clear v = true -> F32.sign_clear k = true ->
  vall F32.sign_clear (vdiv v k) = true.
Proof.
  intros (? & ? & ?)%vall_elim Hk.
  apply vall_intro; cbn; apply sign_clear_div; assumption.
Qed.

End Signs.

(** ** The bounce loop *)

Section Walks.

Context {Sampler : Type}.
Variable getNext1D : Sampler -> float * Sampler.
Variable scene : Scene.t Sampler.

Local Abbreviation Walk := (@PhotonMapping.Walk Sampler).
Local Abbreviation bounce := (PhotonMapping.bounce getNext1D scene).
Local Abbreviation bounces := (PhotonMapping.bounces getNext1D scene).
Local Abbreviation visited := (PhotonMapping.visited getNext1D scene).
Local Abbreviation diffuse_hit := (PhotonMapping.diffuse_hit scene).
Local Abbreviation walk := (PhotonMapping.walk getNext1D scene).
Local Abbreviation emit := (PhotonMapping.emit scene).

(** Writing the photons [ps] to slot [i] one after the other. *)
Local Abbreviation overwrite i :=
  (foldl (fun (a : list (option Photon)) (p : Photon) => <[i := Some p]> a)).

Lemma bounce_photons (i k : nat) (w : Walk) :
  PhotonMapping.photons (PhotonMapping.reached (bounce i k w)) =
  match diffuse_hit w with
  | Some p => <[i := Some p]> (PhotonMapping.photons w)
  | None => PhotonMapping.photons w
  end.
Proof.
  unfold PhotonMapping.bounce, PhotonMapping.diffuse_hit, PhotonMapping.deposit.
  destruct (Scene.intersect scene (PhotonMapping.ray w)) as [info|]; [|reflexivity].
  destruct (PhotonMapping.russian_roulette _ _ _ _) as [[t|] s]; cbn.
  - unfold PhotonMapping.scatter.
    destruct (sampleBRDF _ _ _ _) as [[[f dir] pdf] s']; cbn.
    destruct (getBxDFType _); reflexivity.
  - destruct (getBxDFType _); reflexivity.
Qed.

Lemma bounces_photons (i n : nat) : forall (k : nat) (w : Walk),
  PhotonMapping.photons (PhotonMapping.final (bounces i n k w)) =
  overwrite i (PhotonMapping.photons w) (omap diffuse_hit (visited i n k w)).
Proof.
  induction n as [|n IH]; intros k w; [reflexivity|].
  cbn [PhotonMapping.bounces PhotonMapping.visited omap list_omap].
  pose proof (bounce_photons i k w) as Hb.
  destruct (bounce i k w) as [w'|c w']; cbn in Hb.
  - rewrite IH, Hb. destruct (diffuse_hit w); reflexivity.
  - cbn. rewrite Hb. destruct (diffuse_hit w); reflexivity.
Qed.

Lemma overwrite_length (i : nat) (ps : list Photon) :
  forall a : list (option Photon), length (overwrite i a ps) = length a.
Proof.
  induction ps as [|p ps IH]; intros a; cbn; [reflexivity|].
  rewrite IH. apply length_insert.
Qed.

Lemma overwrite_other (i j : nat) (ps : list Photon) : i <> j ->
  forall a : list (option Photon), overwrite i a ps !! j = a !! j.
Proof.
  intros Hij. induction ps as [|p ps IH]; intros a; cbn; [reflexivity|].
  rewrite IH. apply list_lookup_insert_ne. exact Hij.
Qed.

Lemma overwrite_slot (i : nat) (ps : list Photon) (a : list (option Photon)) :
  i < length a ->
  overwrite i a ps !! i =
  match last ps with Some p => Some (Some p) | None => a !! i end.
Proof.
  intros Hi. induction ps as [|p ps IH] using rev_ind; [reflexivity|].
  rewrite foldl_app, last_snoc. cbn.
  apply list_lookup_insert_eq. rewrite overwrite_length. exact Hi.
Qed.

Lemma bounces_iterations (i n : nat) : forall (k : nat) (w : Walk),
  k < PhotonMapping.iterations (bounces i n k w) + 1 /\
  PhotonMapping.iterations (bounces i n k w) <= k + n /\
  (PhotonMapping.cause (bounces i n k w) = None ->
   PhotonMapping.iterations (bounces i n k w) = k + n).
Proof.
  induction n as [|n IH]; intros k w; cbn.
  - split; [lia|]. split; [lia|]. intros _. lia.
  - destruct (bounce i k w) as [w'|c w']; cbn.
    + destruct (IH (S k) w') as (H1 & H2 & H3).
      split; [lia|]. split; [lia|]. intros H. rewrite (H3 H). lia.
    + split; [lia|]. split; [lia|]. discriminate.
Qed.

Lemma emit_photons (photons : list (option Photon)) (sampler : Sampler) :
  PhotonMapping.photons (emit photons sampler) = photons.
Proof.
  unfold PhotonMapping.emit. name_emission scene sampler. reflexivity.
Qed.

Lemma bounce_sky (i k : nat) (w w' : Walk) :
  bounce i k w = PhotonMapping.Break PhotonMapping.Sky w' ->
  Scene.intersect scene (PhotonMapping.ray w) = None /\ w' = w.
Proof.
  unfold PhotonMapping.bounce.
  destruct (Scene.intersect scene (PhotonMapping.ray w)) as [info|].
  - destruct (PhotonMapping.russian_roulette _ _ _ _) as [[t|] s]; discriminate.
  - intros [= <-]. auto.
Qed.

Lemma bounce_roulette (i k : nat) (w w' : Walk) :
  bounce i k w = PhotonMapping.Break PhotonMapping.Roulette w' ->
  0 < k /\
  is_Some (Scene.intersect scene (PhotonMapping.ray w)) /\
  F32.ge (fst (getNext1D (PhotonMapping.sampler w)))
         (PhotonMapping.russian_roulette_prob (PhotonMapping.throughput w)) = true.
Proof.
  unfold PhotonMapping.bounce, PhotonMapping.russian_roulette.
  destruct (Scene.intersect scene (PhotonMapping.ray w)) as [info|]; [|discriminate].
  destruct k as [|k]; cbn; [discriminate|].
  destruct (getNext1D (PhotonMapping.sampler w)) as [u s]; cbn.
  destruct (F32.ge u _) eqn:Hu; [|discriminate].
  intros _. split; [lia|]. split; [eexists; reflexivity | reflexivity].
Qed.

(** When the loop is left by a [break], the body that broke ran from the
    last of the visited states. *)
Lemma bounces_break (i n : nat) : forall (k : nat) (w : Walk) (c : PhotonMapping.Cause),
  PhotonMapping.cause (bounces i n k w) = Some c ->
  exists (k' : nat) (w' : Walk),
    last (visited i n k w) = Some w' /\
    PhotonMapping.iterations (bounces i n k w) = S k' /\ k <= k' /\
    bounce i k' w' = PhotonMapping.Break c (PhotonMapping.final (bounces i n k w)).
Proof.
  induction n as [|n IH]; intros k w c; cbn; [discriminate|].
  destruct (bounce i k w) as [w1|c1 w1] eqn:Hb; cbn.
  - intros H. destruct (IH (S k) w1 c H) as (k' & w' & Hl & Hi & Hk & Hbr).
    exists k', w'. split.
    + destruct n as [|n']; [discriminate Hl|]. exact Hl.
    + split; [exact Hi|]. split; [lia | exact Hbr].
  - intros [= ->]. exists k, w. rewrite Hb. auto.
Qed.

Lemma visited_length (i n : nat) : forall (k : nat) (w : Walk),
  k + length (visited i n k w) = PhotonMapping.iterations (bounces i n k w).
Proof.
  induction n as [|n IH]; intros k w; cbn; [lia|].
  destruct (bounce i k w) as [w'|c w']; cbn; [|lia].
  rewrite <- (IH (S k) w'). lia.
Qed.

(** *** Signs along a walk *)

Lemma not_neg_of_sign_clear (v : Vec3) :
  vall F32.sign_clear v = true -> vany F32.is_neg v = false.
Proof.
  intros (Hx & Hy & Hz)%vall_elim. unfold vany.
  rewrite (sign_clear_not_neg _ Hx), (sign_clear_not_neg _ Hy), (sign_clear_not_neg _ Hz).
  reflexivity.
Qed.

Lemma sign_clear_prob (t : Vec3) :
  vall F32.sign_clear t = true ->
  F32.sign_clear (PhotonMapping.russian_roulette_prob t) = true.
Proof.
  intros (Hx & Hy & Hz)%vall_elim. unfold PhotonMapping.russian_roulette_prob.
  apply sign_clear_min; [|reflexivity].
  apply sign_clear_max; [assumption|]. apply sign_clear_max; assumption.
Qed.

Lemma sign_clear_roulette (k : nat) (t t' : Vec3) (s s' : Sampler) :
  vall F32.sign_clear t = true ->
  PhotonMapping.russian_roulette getNext1D k t s = (Some t', s') ->
  vall F32.sign_clear t' = true.
Proof.
  intros Ht. unfold PhotonMapping.russian_roulette.
  destruct (0 <? k).
  - destruct (getNext1D s) as [u s1]. destruct (F32.ge u _); [discriminate|].
    intros [= <- _]. apply sign_clear_vdiv; [exact Ht | apply sign_clear_prob, Ht].
  - intros [= <- _]. exact Ht.
Qed.

Lemma sign_clear_emit (photons : list (option Photon)) (sampler : Sampler) :
  PhotonMapping.scene_sign_clear scene ->
  vall F32.sign_clear (PhotonMapping.throughput (emit photons sampler)) = true.
Proof.
  intros [Hl _]. unfold PhotonMapping.emit.
  destruct (Hl sampler) as [Hc [Hp Hle]].
  destruct (Scene.sampleLight scene sampler) as [[light c] s1]. cbn in Hc, Hp, Hle.
  specialize (Hp s1).
  destruct (Light.samplePoint light s1) as [[surf q] s2]. cbn in Hp.
  destruct (Light.sampleDirection light surf s2) as [[dir d] s3]. cbn.
  unfold PhotonMapping.initial_throughput.
  apply sign_clear_vscale; [|apply sign_clear_abs].
  apply sign_clear_vdiv; [apply Hle|]. apply sign_clear_mul; assumption.
Qed.

Lemma sign_clear_scatter (info : IntersectInfo Sampler) (r r0 : Ray) (t : Vec3)
    (ph : list (option Photon)) (s : Sampler) :
  PhotonMapping.scene_sign_clear scene ->
  Scene.intersect scene r0 = Some info ->
  vall F32.sign_clear t = true ->
  vall F32.sign_clear (PhotonMapping.throughput (PhotonMapping.scatter info r t ph s)) = true.
Proof.
  intros [_ Hs] Hi Ht. unfold PhotonMapping.scatter.
  destruct (Hs r0 info Hi (vneg (direction r)) (surfaceInfo info) s) as [Hf Hpdf].
  destruct (sampleBRDF _ _ _ _) as [[[f dir] pdf] s']. cbn in *.
  apply sign_clear_vmul; [exact Ht|].
  apply sign_clear_vdiv; [|exact Hpdf].
  apply sign_clear_vscale; [exact Hf | apply sign_clear_abs].
Qed.

Lemma sign_clear_insert (i : nat) (p : Photon) (a : list (option Photon)) :
  vall F32.sign_clear (power p) = true ->
  PhotonMapping.photons_sign_clear a ->
  PhotonMapping.photons_sign_clear (<[i := Some p]> a).
Proof.
  intros Hp Ha j q Hj.
  apply list_lookup_insert_Some in Hj as [(_ & Heq & _) | (_ & Hj)].
  - injection Heq as <-. exact Hp.
  - exact (Ha j q Hj).
Qed.

Lemma sign_clear_bounce (i k : nat) (w : Walk) :
  PhotonMapping.scene_sign_clear scene ->
  vall F32.sign_clear (PhotonMapping.throughput w) = true ->
  PhotonMapping.photons_sign_clear (PhotonMapping.photons w) ->
  vall F32.sign_clear
       (PhotonMapping.throughput (PhotonMapping.reached (bounce i k w))) = true /\
  PhotonMapping.photons_sign_clear
       (PhotonMapping.photons (PhotonMapping.reached (bounce i k w))).
Proof.
  intros Hsc Ht Hph. split.
  - unfold PhotonMapping.bounce.
    destruct (Scene.intersect scene (PhotonMapping.ray w)) as [info|] eqn:Hi; [|exact Ht].
    destruct (PhotonMapping.russian_roulette _ _ _ _) as [[t|] s] eqn:Hr; [|exact Ht].
    cbn. apply (sign_clear_scatter _ _ _ _ _ Hsc Hi).
    exact (sign_clear_roulette _ _ _ Ht Hr).
  - rewrite bounce_photons. unfold PhotonMapping.diffuse_hit.
    destruct (Scene.intersect scene (PhotonMapping.ray w)) as [info|]; [|exact Hph].
    destruct (getBxDFType _); [|exact Hph].
    apply sign_clear_insert; [exact Ht | exact Hph].
Qed.

Lemma sign_clear_bounces (i n : nat) :
  PhotonMapping.scene_sign_clear scene ->
  forall (k : nat) (w : Walk),
  vall F32.sign_clear (PhotonMapping.throughput w) = true ->
  PhotonMapping.photons_sign_clear (PhotonMapping.photons w) ->
  Forall (fun w' : Walk => vall F32.sign_clear (PhotonMapping.throughput w') = true)
         (visited i n k w) /\
  vall F32.sign_clear
       (PhotonMapping.throughput (PhotonMapping.final (bounces i n k w))) = true /\
  PhotonMapping.photons_sign_clear
       (PhotonMapping.photons (PhotonMapping.final (bounces i n k w))).
Proof.
  intros Hsc. induction n as [|n IH]; intros k w Ht Hph; cbn.
  - split; [constructor|]. split; assumption.
  - destruct (sign_clear_bounce i k w Hsc Ht Hph) as [Ht' Hph'].
    destruct (bounce i k w) as [w'|c w']; cbn in Ht', Hph' |- *.
    + destruct (IH (S k) w' Ht' Hph') as (Hv & Hf & Hp).
      split; [constructor; assumption|]. split; assumption.
    + split; [constructor; [assumption | constructor]|]. split; assumption.
Qed.

(** Started on an empty slot, walk [i] leaves there the last of its diffuse
    hits. *)
Lemma slot_after_walk (maxDepth : Z) (i : nat)
    (photons : list (option Photon)) (sampler : Sampler) :
  photons !! i = Some None ->
  PhotonMapping.photons (PhotonMapping.final (walk maxDepth i photons sampler)) !! i
  = Some (last (PhotonMapping.diffuse_hits getNext1D scene maxDepth i photons sampler)).
Proof.
  intros Hi. unfold PhotonMapping.walk, PhotonMapping.diffuse_hits.
  rewrite bounces_photons, overwrite_slot.
  - rewrite emit_photons, Hi. destruct (last _); reflexivity.
  - rewrite emit_photons. exact (lookup_lt_Some _ _ _ Hi).
Qed.

(** *** Statements about one walk *)

(** C1 (amended). Walk [i], started on an empty slot, leaves a photon in its
    slot if and only if one of the iterations that ran met a surface of
    class [DIFFUSE]; the photon it leaves is the one of the LAST such hit
    (throughput at that moment, position of the hit, reversed ray
    direction): every diffuse hit overwrites the slot. No other slot is
    touched. *)
Theorem walk_slot_holds_last_diffuse_hit (maxDepth : Z) (i : nat)
    (photons : list (option Photon)) (sampler : Sampler) :
  photons !! i = Some None ->
  let r := walk maxDepth i photons sampler in
  let hits := PhotonMapping.diffuse_hits getNext1D scene maxDepth i photons sampler in
  PhotonMapping.photons (PhotonMapping.final r) !! i = Some (last hits) /\
  ((exists p, PhotonMapping.photons (PhotonMapping.final r) !! i = Some (Some p)) <->
   (exists w, In w (visited i (Z.to_nat maxDepth) 0 (emit photons sampler)) /\
              is_Some (diffuse_hit w))) /\
  (forall j, j <> i ->
     PhotonMapping.photons (PhotonMapping.final r) !! j = photons !! j).
Proof.
  intros Hi r hits.
  assert (Hslot : PhotonMapping.photons (PhotonMapping.final r) !! i = Some (last hits))
    by exact (@slot_after_walk maxDepth i photons sampler Hi).
  split; [exact Hslot|]. split.
  - rewrite Hslot. split.
    + intros [p [= Hp]].
      assert (Hin : p ∈ hits) by (apply last_Some_elem_of; exact Hp).
      apply list_elem_of_omap in Hin as (w & Hw & Hd).
      exists w. split; [apply list_elem_of_In; exact Hw | rewrite Hd; eexists; reflexivity].
    + intros (w & Hw & [p Hd]).
      assert (Hin : p ∈ hits).
      { apply list_elem_of_omap. exists w. split; [apply list_elem_of_In; exact Hw | exact Hd]. }
      destruct (last hits) as [q|] eqn:Hq; [exists q; reflexivity|].
      apply last_None in Hq. rewrite Hq in Hin. inversion Hin.
  - intros j Hj. subst r. unfold PhotonMapping.walk.
    rewrite bounces_photons, overwrite_other, emit_photons; [reflexivity | congruence].
Qed.

(** C9. The bounce loop of a walk runs its body at most [maxDepth] times.
    It is left either because the bound is reached, after exactly
    [maxDepth] iterations, or by one of its two [break]s: the ray met
    nothing, or the roulette (at a depth above 0) stopped the walk. In every
    case the walk hands back its variables, and [build] fails for no other
    reason than a negative photon count. *)
Theorem walk_ends_within_maxDepth (maxDepth : Z) (i : nat)
    (photons : list (option Photon)) (sampler : Sampler) :
  let r := walk maxDepth i photons sampler in
  let seen := visited i (Z.to_nat maxDepth) 0 (emit photons sampler) in
  PhotonMapping.iterations r <= Z.to_nat maxDepth /\
  length seen = PhotonMapping.iterations r /\
  (PhotonMapping.cause r = None -> PhotonMapping.iterations r = Z.to_nat maxDepth) /\
  (PhotonMapping.iterations r < Z.to_nat maxDepth ->
     PhotonMapping.cause r = Some PhotonMapping.Roulette \/
     PhotonMapping.cause r = Some PhotonMapping.Sky) /\
  (PhotonMapping.cause r = Some PhotonMapping.Sky ->
     Scene.intersect scene (PhotonMapping.ray (PhotonMapping.final r)) = None) /\
  (PhotonMapping.cause r = Some PhotonMapping.Roulette ->
     exists w, last seen = Some w /\ 1 < PhotonMapping.iterations r /\
       F32.ge (fst (getNext1D (PhotonMapping.sampler w)))
              (PhotonMapping.russian_roulette_prob (PhotonMapping.throughput w)) = true) /\
  (forall (pm : PhotonMapping.t) (s : Sampler),
     threw (PhotonMapping.build getNext1D scene pm s)
     = (PhotonMapping.nPhotons pm <? 0)%Z).
Proof.
  intros r seen. subst r seen. unfold PhotonMapping.walk.
  set (n := Z.to_nat maxDepth). set (w0 := emit photons sampler).
  destruct (bounces_iterations i n 0 w0) as (_ & Hle & Hnone).
  pose proof (visited_length i n 0 w0) as Hlen.
  pose proof (bounces_break i n 0 w0) as Hbr.
  split; [lia|]. split; [lia|]. split; [intros H; rewrite (Hnone H); lia|].
  split.
  { intros Hlt. destruct (PhotonMapping.cause (bounces i n 0 w0)) as [[]|].
    - left; reflexivity.
    - right; reflexivity.
    - specialize (Hnone eq_refl). lia. }
  split.
  { intros Hc. destruct (Hbr _ Hc) as (k' & w' & _ & _ & _ & Hb).
    apply bounce_sky in Hb as [Hi ->]. exact Hi. }
  split.
  { intros Hc. destruct (Hbr _ Hc) as (k' & w' & Hl & Hit & _ & Hb).
    apply bounce_roulette in Hb as (Hk & _ & Hu).
    exists w'. split; [exact Hl|]. split; [lia | exact Hu]. }
  intros pm s. unfold PhotonMapping.build.
  destruct (PhotonMapping.nPhotons pm <? 0)%Z; [reflexivity|].
  destruct (foldl _ _ _) as [ph s']. reflexivity.
Qed.

(** C5. When the ray of walk [i] meets a surface at depth [k]: at depth 0
    no number is drawn and the throughput goes to the sampling of the next
    direction as it is; at a depth above 0 the survival probability is
    [min(max(r, max(g, b)), 1)] of the throughput, one number [u] is drawn,
    the walk stops when [u >= p], and otherwise the throughput divided
    componentwise by [p] goes to the sampling of the next direction. *)
Theorem russian_roulette_from_second_bounce (i k : nat) (w : Walk)
    (info : IntersectInfo Sampler) :
  Scene.intersect scene (PhotonMapping.ray w) = Some info ->
  let t := PhotonMapping.throughput w in
  let p := F32.min (F32.max (vx t) (F32.max (vy t) (vz t))) F32.one in
  let u := fst (getNext1D (PhotonMapping.sampler w)) in
  let s' := snd (getNext1D (PhotonMapping.sampler w)) in
  let ph := PhotonMapping.deposit i info w in
  (k = 0 ->
     bounce i k w
     = PhotonMapping.Next
         (PhotonMapping.scatter info (PhotonMapping.ray w) t ph (PhotonMapping.sampler w))) /\
  (0 < k -> F32.ge u p = true ->
     bounce i k w
     = PhotonMapping.Break PhotonMapping.Roulette
         (PhotonMapping.mkWalk (PhotonMapping.ray w) t ph s')) /\
  (0 < k -> F32.ge u p = false ->
     bounce i k w
     = PhotonMapping.Next
         (PhotonMapping.scatter info (PhotonMapping.ray w)
            (mkVec3 (F32.div (vx t) p) (F32.div (vy t) p) (F32.div (vz t) p)) ph s')).
Proof.
  intros Hi t p u s' ph. subst t p u s' ph.
  unfold PhotonMapping.bounce. rewrite Hi.
  unfold PhotonMapping.russian_roulette, PhotonMapping.russian_roulette_prob.
  split; [|split].
  - intros ->. reflexivity.
  - intros Hk Hu. destruct k as [|k]; [lia|]. cbn.
    destruct (getNext1D (PhotonMapping.sampler w)) as [u s1]. cbn in Hu |- *.
    rewrite Hu. reflexivity.
  - intros Hk Hu. destruct k as [|k]; [lia|]. cbn.
    destruct (getNext1D (PhotonMapping.sampler w)) as [u s1]. cbn in Hu |- *.
    rewrite Hu. reflexivity.
Qed.

(** C3 (amended). The walk does not look at [pdf_dir]: whenever the ray meets
    a surface and the roulette lets the walk go on, the next direction is
    sampled, the throughput is multiplied componentwise by
    [f * |dot(dir, normal)| / pdf_dir], whatever [pdf_dir] is, and the loop
    goes on from the hit along [dir]. As long as the values handed out by
    the lights and the primitives of the scene carry no minus sign, the
    throughput at the head of every iteration and at the end of the walk,
    and the power of every photon in the array, carry none either, so no
    component is below zero; they can be infinite or NaN. *)
Theorem pdf_dir_is_not_tested :
  (forall (info : IntersectInfo Sampler) (r : Ray) (t : Vec3)
          (ph : list (option Photon)) (s : Sampler),
     let sample := sampleBRDF (hitPrimitive info) (vneg (direction r))
                              (surfaceInfo info) s in
     let f := fst (fst (fst sample)) in
     let dir := snd (fst (fst sample)) in
     let pdf_dir := snd (fst sample) in
     PhotonMapping.scatter info r t ph s
     = PhotonMapping.mkWalk
         (mkRay (position (surfaceInfo info)) dir)
         (vmul t (vdiv (vscale f (F32.abs (dot dir (normal (surfaceInfo info)))))
                       pdf_dir))
         ph (snd sample)) /\
  (forall (i k : nat) (w : Walk) (info : IntersectInfo Sampler) (t : Vec3) (s : Sampler),
     Scene.intersect scene (PhotonMapping.ray w) = Some info ->
     PhotonMapping.russian_roulette getNext1D k (PhotonMapping.throughput w)
                                    (PhotonMapping.sampler w) = (Some t, s) ->
     bounce i k w
     = PhotonMapping.Next
         (PhotonMapping.scatter info (PhotonMapping.ray w) t
            (PhotonMapping.deposit i info w) s)) /\
  (PhotonMapping.scene_sign_clear scene ->
   forall (maxDepth : Z) (i : nat) (photons : list (option Photon)) (sampler : Sampler),
     PhotonMapping.photons_sign_clear photons ->
     let r := walk maxDepth i photons sampler in
     Forall (fun w : Walk => vany F32.is_neg (PhotonMapping.throughput w) = false)
            (visited i (Z.to_nat maxDepth) 0 (emit photons sampler)) /\
     vany F32.is_neg (PhotonMapping.throughput (PhotonMapping.final r)) = false /\
     (forall j p, PhotonMapping.photons (PhotonMapping.final r) !! j = Some (Some p) ->
                  vany F32.is_neg (power p) = false)).
Proof.
  split; [|split].
  - intros info r t ph s. cbn zeta. unfold PhotonMapping.scatter.
    destruct (sampleBRDF _ _ _ _) as [[[f dir] pdf] s1]. reflexivity.
  - intros i k w info t s Hi Hr. unfold PhotonMapping.bounce. rewrite Hi, Hr. reflexivity.
  - intros Hsc maxDepth i photons sampler Hph r. subst r. unfold PhotonMapping.walk.
    destruct (sign_clear_bounces i (Z.to_nat maxDepth) Hsc 0 (emit photons sampler))
      as (Hv & Hf & Hp).
    + apply sign_clear_emit, Hsc.
    + rewrite emit_photons. exact Hph.
    + split; [|split].
      * eapply Forall_impl; [exact Hv|]. intros w Hw. apply not_neg_of_sign_clear, Hw.
      * apply not_neg_of_sign_clear, Hf.
      * intros j p Hj. apply not_neg_of_sign_clear. exact (Hp j p Hj).
Qed.

(** C6. A walk starts with the throughput
    [Le(point, dir) / (light_choose_pdf * light_pos_pdf) * |dot(dir, normal)|],
    on the ray from the sampled point along the sampled direction. The
    density of the direction does not enter: a scene whose lights report any
    other value for it starts every walk in the same state. *)
Theorem initial_throughput_ignores_direction_pdf
    (photons : list (option Photon)) (sampler : Sampler) :
  let sl := Scene.sampleLight scene sampler in
  let light := fst (fst sl) in
  let light_choose_pdf := snd (fst sl) in
  let sp := Light.samplePoint light (snd sl) in
  let light_surf := fst (fst sp) in
  let light_pos_pdf := snd (fst sp) in
  let sd := Light.sampleDirection light light_surf (snd sp) in
  let dir := fst (fst sd) in
  emit photons sampler
  = PhotonMapping.mkWalk
      (mkRay (position light_surf) dir)
      (vscale (vdiv (Light.Le light light_surf dir)
                    (F32.mul light_choose_pdf light_pos_pdf))
              (F32.abs (dot dir (normal light_surf))))
      photons (snd sd) /\
  (forall g : float -> float,
     PhotonMapping.emit (scene_with_dir_pdf g scene) photons sampler
     = emit photons sampler).
Proof.
  cbn zeta. unfold PhotonMapping.emit, scene_with_dir_pdf, light_with_dir_pdf.
  split.
  - name_emission scene sampler. reflexivity.
  - intros g. cbn. name_emission scene sampler. reflexivity.
Qed.

End Walks.

(** ** The photon loop and the photon map *)

Section Build.

Context {Sampler : Type}.
Variable getNext1D : Sampler -> float * Sampler.
Variable scene : Scene.t Sampler.

Local Abbreviation tracePhoton := (PhotonMapping.tracePhoton getNext1D scene).
Local Abbreviation before_walk := (PhotonMapping.before_walk getNext1D scene).

Lemma omap_length_le {A B : Type} (f : A -> option B) (l : list A) :
  length (omap f l) <= length l.
Proof.
  induction l as [|x l IH]; cbn; [lia|].
  destruct (f x); cbn; lia.
Qed.

Lemma addPhotons_spec (slots : list (option Photon)) : forall m : PhotonMap.t,
  PhotonMapping.addPhotons m slots
  = PhotonMap.mk (PhotonMap.photons m ++ omap id slots) (PhotonMap.built m).
Proof.
  unfold PhotonMapping.addPhotons.
  induction slots as [|[p|] slots IH]; intros [ps b]; cbn.
  - rewrite app_nil_r. reflexivity.
  - rewrite IH. cbn. rewrite <- app_assoc. reflexivity.
  - rewrite IH. reflexivity.
Qed.

Lemma tracePhoton_length (maxDepth : Z) (st : list (option Photon) * Sampler) (i : nat) :
  length (fst (tracePhoton maxDepth st i)) = length (fst st).
Proof.
  unfold PhotonMapping.tracePhoton, PhotonMapping.walk. cbn.
  rewrite bounces_photons, overwrite_length, emit_photons. reflexivity.
Qed.

Lemma tracePhoton_other (maxDepth : Z) (st : list (option Photon) * Sampler) (i j : nat) :
  i <> j -> fst (tracePhoton maxDepth st i) !! j = fst st !! j.
Proof.
  intros Hij. unfold PhotonMapping.tracePhoton, PhotonMapping.walk. cbn.
  rewrite bounces_photons, overwrite_other, emit_photons; [reflexivity | exact Hij].
Qed.

Lemma tracePhotons_length (maxDepth : Z) (js : list nat) :
  forall st, length (fst (foldl (tracePhoton maxDepth) st js)) = length (fst st).
Proof.
  induction js as [|j js IH]; intros st; cbn; [reflexivity|].
  rewrite IH. apply tracePhoton_length.
Qed.

Lemma tracePhotons_other (maxDepth : Z) (js : list nat) (j : nat) :
  ~ In j js ->
  forall st, fst (foldl (tracePhoton maxDepth) st js) !! j = fst st !! j.
Proof.
  induction js as [|i js IH]; intros Hj st; cbn; [reflexivity|].
  rewrite IH by (intros H; apply Hj; right; exact H).
  apply tracePhoton_other. intros ->. apply Hj. left. reflexivity.
Qed.

(** After the photon loop, slot [i] still holds what walk [i] left there. *)
Lemma slot_after_loop (maxDepth : Z) (n : nat) (sampler : Sampler) (i : nat) :
  i < n ->
  fst (before_walk maxDepth n sampler n) !! i
  = fst (tracePhoton maxDepth (before_walk maxDepth n sampler i) i) !! i.
Proof.
  intros Hi. unfold PhotonMapping.before_walk.
  replace n with (S i + (n - S i)) at 2 by lia.
  rewrite seq_app, foldl_app, seq_S, foldl_app. cbn [foldl].
  apply tracePhotons_other. rewrite in_seq. lia.
Qed.

(** C8. When [build] returns, the photons it added to the photon map are
    the contents of the array of [nPhotons] slots, in slot order; slot [i]
    holds what walk [i] left in it, which is one photon at most (the last
    diffuse hit of that walk, or nothing). So at most [nPhotons] photons
    were added, and a photon map that was empty before holds at most
    [nPhotons] photons. *)
Theorem build_adds_at_most_one_photon_per_walk
    (pm pm' : PhotonMapping.t) (s s' : Sampler) :
  PhotonMapping.build getNext1D scene pm s = Returned (pm', s') ->
  let n := Z.to_nat (PhotonMapping.nPhotons pm) in
  let maxDepth := PhotonMapping.maxDepth pm in
  let before := PhotonMap.photons (PhotonMapping.photonMap pm) in
  let after := PhotonMap.photons (PhotonMapping.photonMap pm') in
  exists slots : list (option Photon),
    length slots = n /\
    (forall i, i < n ->
       slots !! i
       = Some (last (PhotonMapping.diffuse_hits getNext1D scene maxDepth i
                       (fst (before_walk maxDepth n s i))
                       (snd (before_walk maxDepth n s i))))) /\
    after = before ++ omap id slots /\
    length after <= length before + n /\
    (before = [] -> length after <= n).
Proof.
  unfold PhotonMapping.build.
  destruct (PhotonMapping.nPhotons pm <? 0)%Z; [discriminate|].
  set (n := Z.to_nat (PhotonMapping.nPhotons pm)).
  set (md := PhotonMapping.maxDepth pm).
  pose proof (tracePhotons_length md (seq 0 n) (replicate n None, s)) as Hlen.
  pose proof (fun i => @slot_after_loop md n s i) as Hslot.
  unfold PhotonMapping.before_walk in Hslot at 1.
  destruct (foldl (tracePhoton md) (replicate n None, s) (seq 0 n)) as [slots s1].
  cbn in Hlen, Hslot. rewrite length_replicate in Hlen.
  intros [= <- <-]. cbn. exists slots.
  rewrite addPhotons_spec. cbn.
  pose proof (omap_length_le id slots) as Hle.
  split; [exact Hlen|]. split.
  - intros i Hi. rewrite (Hslot i Hi).
    assert (Hempty : fst (before_walk md n s i) !! i = Some None).
    { unfold PhotonMapping.before_walk.
      rewrite tracePhotons_other by (rewrite in_seq; lia).
      cbn. apply lookup_replicate_2. exact Hi. }
    exact (@slot_after_walk _ getNext1D scene md i _ (snd (before_walk md n s i)) Hempty).
  - split; [reflexivity|]. split.
    + rewrite length_app. lia.
    + intros ->. cbn. lia.
Qed.

(** C2 (amended). [build] checks nothing on entry. Its only failure is the
    allocation of the photon array, which throws when [nPhotons] is
    negative, before any walk. A photon count of zero is accepted: no walk
    runs, the scene and the sampler are not touched, and the photon map is
    finalised as it is. [nDensityEstimation] is not read: with any other
    value [build] does the same. The lights are not inspected on entry; they
    are sampled at the start of each walk. *)
Theorem build_checks_nothing_on_entry :
  (forall (pm : PhotonMapping.t) (s : Sampler),
     threw (PhotonMapping.build getNext1D scene pm s)
     = (PhotonMapping.nPhotons pm <? 0)%Z) /\
  (forall (nDensityEstimation maxDepth : Z) (m : PhotonMap.t) (s : Sampler),
     PhotonMapping.build getNext1D scene
       (PhotonMapping.mk 0 nDensityEstimation maxDepth m) s
     = Returned (PhotonMapping.mk 0 nDensityEstimation maxDepth (PhotonMap.build m), s)) /\
  (forall (nPhotons d d' maxDepth : Z) (m : PhotonMap.t) (s : Sampler),
     PhotonMapping.build getNext1D scene (PhotonMapping.mk nPhotons d' maxDepth m) s
     = match PhotonMapping.build getNext1D scene (PhotonMapping.mk nPhotons d maxDepth m) s with
       | Returned (pm', s') =>
           Returned (PhotonMapping.mk nPhotons d' maxDepth (PhotonMapping.photonMap pm'), s')
       | Thrown e => Thrown e
       end).
Proof.
  split; [|split].
  - intros pm s. unfold PhotonMapping.build.
    destruct (PhotonMapping.nPhotons pm <? 0)%Z; [reflexivity|].
    destruct (foldl _ _ _) as [ph s']. reflexivity.
  - intros d md [ps b] s. reflexivity.
  - intros n d d' md m s. unfold PhotonMapping.build. cbn.
    destruct (n <? 0)%Z; [reflexivity|].
    destruct (foldl _ _ _) as [ph s']. reflexivity.
Qed.

(** C4 (amended). [integrate] makes no check of whether [build] has run: on
    every [PhotonMapping], built or not, and for every ray, scene and
    sampler, it returns the zero vector and leaves the sampler as it was. *)
Theorem integrate_returns_zero (pm : PhotonMapping.t) (r : Ray) (s : Sampler) :
  PhotonMapping.integrate pm r scene s
  = Returned (mkVec3 F32.zero F32.zero F32.zero, s) /\
  Integrator.integrate (t := PhotonMapping.PhotonMapping_Integrator getNext1D) pm r scene s
  = Returned (mkVec3 F32.zero F32.zero F32.zero, s).
Proof. split; reflexivity. Qed.

End Build.

(** ** primitive.h: the pairs of [sampleAllBxDF] *)

Section PrimitiveFacts.

Context {Sampler Triangle : Type}.
Variables worldToLocal localToWorld : Vec3 -> Vec3 -> Vec3 -> Vec3 -> Vec3.

Local Abbreviation to_world_at := (Primitive.to_world_at localToWorld).

(** What the loop does to one pair. *)
Local Abbreviation to_world surfInfo :=
  (fun dp : DirectionPair =>
     (localToWorld (fst dp) (dpdu surfInfo) (normal surfInfo) (dpdv surfInfo), snd dp)).

Lemma to_world_length (surfInfo : SurfaceInfo) (js : list nat) :
  forall l : list DirectionPair,
  length (foldl (to_world_at surfInfo) l js) = length l.
Proof.
  induction js as [|j js IH]; intros l; cbn; [reflexivity|].
  rewrite IH. apply length_alter.
Qed.

(** After the first [n] steps of the loop the first [n] pairs are
    transformed and the others are as they were. *)
Lemma to_world_prefix (surfInfo : SurfaceInfo) (l : list DirectionPair) (n j : nat) :
  foldl (to_world_at surfInfo) l (seq 0 n) !! j
  = if decide (j < n) then to_world surfInfo <$> l !! j else l !! j.
Proof.
  induction n as [|n IH].
  - cbn. destruct (decide (j < 0)); [lia | reflexivity].
  - rewrite seq_S, foldl_app. cbn [foldl]. unfold Primitive.to_world_at at 1.
    change (0 + n) with n.
    destruct (decide (n = j)) as [->|Hne].
    + rewrite list_lookup_alter_eq, IH.
      destruct (decide (j < j)); [lia|]. destruct (decide (j < S j)); [reflexivity | lia].
    + rewrite list_lookup_alter_ne by exact Hne. rewrite IH.
      destruct (decide (j < n)), (decide (j < S n)); try lia; reflexivity.
Qed.

(** C10. [sampleAllBxDF] returns the pairs that the BxDF's
    [sampleAllDirection] gives for the local [wo]: as many pairs, in the
    same order, the weight of each pair unchanged and its direction replaced
    by [localToWorld] of it in the frame [(dpdu, normal, dpdv)]. *)
Theorem sampleAllBxDF_transforms_directions_only
    (p : @Primitive.t Sampler Triangle) (wo : Vec3) (surfInfo : SurfaceInfo) :
  let wo_l := worldToLocal wo (dpdu surfInfo) (normal surfInfo) (dpdv surfInfo) in
  let local := BxDF.sampleAllDirection (Primitive.bxdf p) wo_l in
  let world := Primitive.sampleAllBxDF worldToLocal localToWorld p wo surfInfo in
  length world = length local /\
  (forall j : nat,
     world !! j
     = match local !! j with
       | Some dp =>
           Some (localToWorld (fst dp) (dpdu surfInfo) (normal surfInfo) (dpdv surfInfo),
                 snd dp)
       | None => None
       end) /\
  map snd world = map snd local.
Proof.
  intros wo_l local world.
  assert (Hlen : length world = length local).
  { subst world. unfold Primitive.sampleAllBxDF. apply to_world_length. }
  assert (Hj : forall j, world !! j = to_world surfInfo <$> local !! j).
  { intros j. subst world. unfold Primitive.sampleAllBxDF. fold wo_l. fold local.
    rewrite to_world_prefix. destruct (decide (j < length local)) as [|Hge]; [reflexivity|].
    rewrite (lookup_ge_None_2 local j) by lia. reflexivity. }
  split; [exact Hlen|]. split.
  - intros j. rewrite Hj. destruct (local !! j); reflexivity.
  - apply list_eq. intros j. change (map snd) with (fmap (M := list) (@snd Vec3 float)).
    rewrite !list_lookup_fmap, Hj. destruct (local !! j); reflexivity.
Qed.

End PrimitiveFacts.

(** ** The statements on the concrete scenes *)

Section OnExamples.

Import Examples.

(** The three ways a walk ends: the ray meets nothing, the roulette stops
    it, the depth is used up. *)
Example void_walk_escapes :
  let r := PhotonMapping.walk nextOf void 100 0 [None] [] in
  PhotonMapping.cause r = Some PhotonMapping.Sky /\
  PhotonMapping.iterations r = 1 /\
  PhotonMapping.photons (PhotonMapping.final r) = [None].
Proof. repeat split; vm_compute; reflexivity. Qed.

Example box_walk_stopped_by_roulette :
  let r := PhotonMapping.walk nextOf box 100 0 [None] [half] in
  PhotonMapping.cause r = Some PhotonMapping.Roulette /\
  PhotonMapping.iterations r = 2 /\
  PhotonMapping.photons (PhotonMapping.final r) = [Some floor_hit].
Proof. repeat split; vm_compute; reflexivity. Qed.

Example box_walk_uses_up_depth :
  let r := PhotonMapping.walk nextOf box 2 0 [None] [quarter] in
  PhotonMapping.cause r = None /\
  PhotonMapping.iterations r = 2 /\
  PhotonMapping.photons (PhotonMapping.final r) = [Some floor_hit].
Proof. repeat split; vm_compute; reflexivity. Qed.

(** C1, refuted as stated: in [box] the walk of depth 2 meets the diffuse
    ceiling, then the diffuse floor. The slot holds the photon of the
    ceiling after the first iteration and the photon of the floor at the
    end: the first diffuse hit was overwritten. *)
Lemma box_slot_is_overwritten :
  head (PhotonMapping.diffuse_hits nextOf box 2 0 [None] [quarter]) = Some ceiling_hit /\
  PhotonMapping.photons box_second !! 0 = Some (Some ceiling_hit) /\
  PhotonMapping.photons
    (PhotonMapping.final (PhotonMapping.walk nextOf box 2 0 [None] [quarter])) !! 0
  = Some (Some floor_hit) /\
  ceiling_hit <> floor_hit.
Proof.
  split; [vm_compute; reflexivity|]. split; [vm_compute; reflexivity|].
  split; [vm_compute; reflexivity|].
  intros H. apply (f_equal photon_position) in H. vm_compute in H. discriminate H.
Qed.

(** C1 (amended), on [box]: the slot of walk 0 was empty and ends with the
    last of the two diffuse hits. *)
Lemma box_slot_witness :
  ([None] : list (option Photon)) !! 0 = Some None /\
  PhotonMapping.photons
    (PhotonMapping.final (PhotonMapping.walk nextOf box 2 0 [None] [quarter])) !! 0
  = Some (last (PhotonMapping.diffuse_hits nextOf box 2 0 [None] [quarter])).
Proof.
  split; [reflexivity|].
  exact (proj1 (@walk_slot_holds_last_diffuse_hit _ nextOf box 2 0 [None] [quarter] eq_refl)).
Defined.

(** C2, refuted as stated: [build] accepts a photon count of zero and a
    density-estimation count of zero. With both zero it returns at once with
    an empty, finalised photon map; with one photon and a
    density-estimation count of zero it traces the walk and stores its
    photon. *)
Lemma box_build_accepts_zero_counts :
  PhotonMapping.build nextOf box (PhotonMapping.new 0 0 100) [quarter]
  = Returned (PhotonMapping.mk 0 0 100 (PhotonMap.mk [] true), [quarter]) /\
  PhotonMapping.build nextOf box (PhotonMapping.new 1 0 2) [quarter]
  = Returned (PhotonMapping.mk 1 0 2 (PhotonMap.mk [floor_hit] true), []) /\
  threw (PhotonMapping.build nextOf box (PhotonMapping.new 0 0 100) [quarter]) = false /\
  threw (PhotonMapping.build nextOf box (PhotonMapping.new 1 0 2) [quarter]) = false.
Proof. repeat split; vm_compute; reflexivity. Qed.

(** C3, refuted as stated: in [degenerate] the sample taken at the specular
    ceiling has density zero. The walk does not stop there: the throughput
    becomes infinite, the loop runs its second iteration, and the photon
    stored at the floor has infinite power. *)
Lemma degenerate_walk_goes_on :
  snd (fst (sampleBRDF (mirror down F32.zero) (vneg up) ceiling_surface [quarter]))
  = F32.zero /\
  PhotonMapping.bounce nextOf degenerate 0 0 degenerate_start
  = PhotonMapping.Next degenerate_second /\
  PhotonMapping.throughput degenerate_second = Vec3_fill F32.inf /\
  PhotonMapping.iterations (PhotonMapping.walk nextOf degenerate 2 0 [None] [quarter]) = 2 /\
  PhotonMapping.photons
    (PhotonMapping.final (PhotonMapping.walk nextOf degenerate 2 0 [None] [quarter])) !! 0
  = Some (Some (mkPhoton (Vec3_fill F32.inf) v000 up)) /\
  vany F32.is_inf (Vec3_fill F32.inf) = true.
Proof. repeat split; vm_compute; reflexivity. Qed.

(** With [f] zero as well the quotient is 0/0: the photon stored at the
    floor has a power that is not a number. *)
Example dark_walk_stores_nan :
  PhotonMapping.photons
    (PhotonMapping.final (PhotonMapping.walk nextOf dark 2 0 [None] [quarter])) !! 0
  = Some (Some (mkPhoton (Vec3_fill S754_nan) v000 up)) /\
  vall F32.is_nan (Vec3_fill S754_nan) = true.
Proof. split; vm_compute; reflexivity. Qed.

(** Nothing in [box] carries a minus sign. *)
Lemma box_sign_clear : PhotonMapping.scene_sign_clear box.
Proof.
  split.
  - intros s. split; [reflexivity|]. split; [intros s1; reflexivity|].
    intros surf dir. reflexivity.
  - intros r info. cbn. unfold between.
    destruct (F32.lt F32.zero (vy (direction r))).
    + intros [= <-] wo si s. split; reflexivity.
    + destruct (F32.lt (vy (direction r)) F32.zero); [|discriminate].
      intros [= <-] wo si s. split; reflexivity.
Qed.

(** C3 (amended), on [box]: the scene and the empty array meet the sign
    conditions, and the throughput at the end of walk 0 is not below zero. *)
Lemma box_signs_witness :
  PhotonMapping.scene_sign_clear box /\
  PhotonMapping.photons_sign_clear [None] /\
  vany F32.is_neg
    (PhotonMapping.throughput
       (PhotonMapping.final (PhotonMapping.walk nextOf box 2 0 [None] [quarter]))) = false.
Proof.
  assert (Hph : PhotonMapping.photons_sign_clear [None]).
  { intros [|j] p H; [discriminate H | destruct j; discriminate H]. }
  split; [exact box_sign_clear|]. split; [exact Hph|].
  exact (proj1 (proj2 (proj2 (proj2 (@pdf_dir_is_not_tested _ nextOf box)) box_sign_clear
                         2%Z 0 [None] [quarter] Hph))).
Defined.

(** C4, refuted as stated: on an integrator whose [build] never ran,
    [integrate] returns the zero vector like on any other. *)
Lemma integrate_before_build :
  PhotonMap.built (PhotonMapping.photonMap (PhotonMapping.new 1 1 100)) = false /\
  Integrator.integrate (t := PhotonMapping.PhotonMapping_Integrator nextOf)
    (PhotonMapping.new 1 1 100) some_ray box [quarter]
  = Returned (Vec3_fill F32.zero, [quarter]) /\
  threw (PhotonMapping.integrate (PhotonMapping.new 1 1 100) some_ray box [quarter])
  = false.
Proof. repeat split; reflexivity. Qed.

(** C5, on [box]: at depth 1 the ray meets the floor with throughput
    (1/2, 1/2, 1/2); the number drawn, 1/4, is below the survival
    probability 1/2, so the throughput is doubled before the next direction
    is sampled and ends the iteration at (1/2, 1/2, 1/2) again. *)
Lemma box_roulette_witness :
  Scene.intersect box (PhotonMapping.ray box_second)
  = Some (mkIntersectInfo floor_surface (matte up)) /\
  0 < 1 /\
  F32.ge (fst (nextOf (PhotonMapping.sampler box_second)))
         (F32.min (F32.max half (F32.max half half)) F32.one) = false /\
  PhotonMapping.throughput
    (PhotonMapping.reached (PhotonMapping.bounce nextOf box 0 1 box_second))
  = Vec3_fill half.
Proof.
  assert (Hi : Scene.intersect box (PhotonMapping.ray box_second)
               = Some (mkIntersectInfo floor_surface (matte up)))
    by (vm_compute; reflexivity).
  split; [exact Hi|]. split; [lia|]. split; [vm_compute; reflexivity|].
  rewrite (proj2 (proj2 (@russian_roulette_from_second_bounce _ nextOf box 0 1
                           box_second _ Hi))
             ltac:(lia) ltac:(vm_compute; reflexivity)).
  vm_compute. reflexivity.
Defined.

(** C8, on [box]: [build] returns for two photons, and the photon map holds
    at most two. *)
Lemma box_build_witness :
  PhotonMapping.build nextOf box (PhotonMapping.new 2 0 2) [quarter; half]
  = Returned (fst box_built, snd box_built) /\
  length (PhotonMap.photons (PhotonMapping.photonMap (fst box_built))) <= 2.
Proof.
  assert (H : PhotonMapping.build nextOf box (PhotonMapping.new 2 0 2) [quarter; half]
              = Returned (fst box_built, snd box_built))
    by (vm_compute; reflexivity).
  split; [exact H|].
  destruct (@build_adds_at_most_one_photon_per_walk _ nextOf box _ _ _ _ H)
    as (slots & _ & _ & _ & _ & Hle).
  exact (Hle eq_refl).
Defined.

End OnExamples.

(** * Further properties of the code *)

(** ** The course of a walk *)

Section Course.

Context {Sampler : Type}.
Variable getNext1D : Sampler -> float * Sampler.
Variable scene : Scene.t Sampler.

Local Abbreviation Walk := (@PhotonMapping.Walk Sampler).
Local Abbreviation bounce := (PhotonMapping.bounce getNext1D scene).
Local Abbreviation bounces := (PhotonMapping.bounces getNext1D scene).
Local Abbreviation visited := (PhotonMapping.visited getNext1D scene).
Local Abbreviation diffuse_hit := (PhotonMapping.diffuse_hit scene).
Local Abbreviation diffuse_hits := (PhotonMapping.diffuse_hits getNext1D scene).
Local Abbreviation walk := (PhotonMapping.walk getNext1D scene).
Local Abbreviation emit := (PhotonMapping.emit scene).
Local Abbreviation same_course := (@PhotonMapping.same_course Sampler).

Lemma emit_same_course (ph1 ph2 : list (option Photon)) (s : Sampler) :
  same_course (emit ph1 s) (emit ph2 s).
Proof.
  unfold PhotonMapping.emit, PhotonMapping.same_course.
  name_emission scene s. auto.
Qed.

Lemma diffuse_hit_same_course (w1 w2 : Walk) :
  same_course w1 w2 -> diffuse_hit w1 = diffuse_hit w2.
Proof.
  intros (Hr & Ht & _). unfold PhotonMapping.diffuse_hit. rewrite Hr, Ht. reflexivity.
Qed.

(** The body of the bounce loop takes the same way, to the same ray,
    throughput and sampler, whatever the array holds and whichever slot it
    writes. *)
Lemma bounce_same_course (i1 i2 k : nat) (w1 w2 : Walk) :
  same_course w1 w2 ->
  match bounce i1 k w1, bounce i2 k w2 with
  | PhotonMapping.Next a, PhotonMapping.Next b => same_course a b
  | PhotonMapping.Break c a, PhotonMapping.Break d b => c = d /\ same_course a b
  | _, _ => False
  end.
Proof.
  intros (Hr & Ht & Hs). unfold PhotonMapping.bounce. rewrite Hr, Ht, Hs.
  destruct (Scene.intersect scene (PhotonMapping.ray w2)) as [info|].
  - destruct (PhotonMapping.russian_roulette _ _ _ _) as [[t|] s].
    + unfold PhotonMapping.scatter, PhotonMapping.same_course.
      destruct (sampleBRDF _ _ _ _) as [[[f dir] pdf] s']. cbn. auto.
    + unfold PhotonMapping.same_course. cbn. auto.
  - unfold PhotonMapping.same_course. auto.
Qed.

Lemma bounces_same_course (i1 i2 n : nat) : forall (k : nat) (w1 w2 : Walk),
  same_course w1 w2 ->
  PhotonMapping.cause (bounces i1 n k w1) = PhotonMapping.cause (bounces i2 n k w2) /\
  PhotonMapping.iterations (bounces i1 n k w1)
  = PhotonMapping.iterations (bounces i2 n k w2) /\
  same_course (PhotonMapping.final (bounces i1 n k w1))
              (PhotonMapping.final (bounces i2 n k w2)) /\
  omap diffuse_hit (visited i1 n k w1) = omap diffuse_hit (visited i2 n k w2).
Proof.
  induction n as [|n IH]; intros k w1 w2 Hw; [cbn; auto|].
  cbn [PhotonMapping.bounces PhotonMapping.visited omap list_omap].
  rewrite (diffuse_hit_same_course Hw).
  pose proof (bounce_same_course i1 i2 k Hw) as Hb.
  destruct (bounce i1 k w1) as [a|c a], (bounce i2 k w2) as [b|d b]; try contradiction.
  - destruct (IH (S k) a b Hb) as (H1 & H2 & H3 & H4). rewrite H4. auto.
  - destruct Hb as [-> Hb]. cbn. auto.
Qed.

(** The course of a walk as a whole. *)
Lemma walk_same_course (maxDepth : Z) (i1 i2 : nat)
    (ph1 ph2 : list (option Photon)) (s : Sampler) :
  PhotonMapping.cause (walk maxDepth i1 ph1 s) = PhotonMapping.cause (walk maxDepth i2 ph2 s) /\
  PhotonMapping.iterations (walk maxDepth i1 ph1 s)
  = PhotonMapping.iterations (walk maxDepth i2 ph2 s) /\
  same_course (PhotonMapping.final (walk maxDepth i1 ph1 s))
              (PhotonMapping.final (walk maxDepth i2 ph2 s)) /\
  diffuse_hits maxDepth i1 ph1 s = diffuse_hits maxDepth i2 ph2 s.
Proof.
  unfold PhotonMapping.walk, PhotonMapping.diffuse_hits.
  apply bounces_same_course, emit_same_course.
Qed.


(** *** The depth bound *)

Lemma bounces_break_stable (i n m : nat) :
  forall (k : nat) (w : Walk) (c : PhotonMapping.Cause),
  PhotonMapping.cause (bounces i n k w) = Some c ->
  bounces i (n + m) k w = bounces i n k w.
Proof.
  induction n as [|n IH]; intros k w c; cbn; [discriminate|].
  destruct (bounce i k w) as [w'|c' w']; [apply IH | reflexivity].
Qed.

Lemma bounces_resume (i n m : nat) : forall (k : nat) (w : Walk),
  PhotonMapping.cause (bounces i n k w) = None ->
  bounces i (n + m) k w
  = bounces i m (PhotonMapping.iterations (bounces i n k w))
            (PhotonMapping.final (bounces i n k w)).
Proof.
  induction n as [|n IH]; intros k w; cbn; [reflexivity|].
  destruct (bounce i k w) as [w'|c' w']; [apply IH | discriminate].
Qed.

Lemma visited_extends (i n m : nat) : forall (k : nat) (w : Walk),
  exists rest, visited i (n + m) k w = visited i n k w ++ rest.
Proof.
  induction n as [|n IH]; intros k w; cbn.
  - eexists. reflexivity.
  - destruct (bounce i k w) as [w'|c' w'].
    + destruct (IH (S k) w') as [rest ->]. exists rest. reflexivity.
    + exists []. reflexivity.
Qed.

(** X3. Raising [maxDepth] only prolongs the walks that used it up. A walk
    that was left by a [break] under the smaller bound is the same walk
    under the larger one; a walk that used up the smaller bound goes on,
    under the larger one, from the state it had reached; and the diffuse hits
    under the smaller bound are the first diffuse hits under the larger. *)
Theorem maxDepth_only_prolongs (d d' : Z) (i : nat)
    (ph : list (option Photon)) (s : Sampler) :
  (d <= d')%Z ->
  let r := walk d i ph s in
  (forall c, PhotonMapping.cause r = Some c -> walk d' i ph s = r) /\
  (PhotonMapping.cause r = None ->
     walk d' i ph s
     = bounces i (Z.to_nat d' - Z.to_nat d) (PhotonMapping.iterations r)
               (PhotonMapping.final r)) /\
  (exists more, diffuse_hits d' i ph s = diffuse_hits d i ph s ++ more).
Proof.
  intros Hd r. subst r. unfold PhotonMapping.walk, PhotonMapping.diffuse_hits.
  replace (Z.to_nat d') with (Z.to_nat d + (Z.to_nat d' - Z.to_nat d)) by lia.
  set (n := Z.to_nat d). set (m := Z.to_nat d' - n).
  replace (n + m - n) with m by lia.
  split; [|split].
  - intros c Hc. exact (bounces_break_stable i n m 0 _ Hc).
  - intros Hc. exact (bounces_resume i n m 0 _ Hc).
  - destruct (visited_extends i n m 0 (emit ph s)) as [rest ->].
    rewrite omap_app. eexists. reflexivity.
Qed.

(** *** Connected rays *)

Lemma bounce_next_origin (i k : nat) (w w' : Walk) :
  bounce i k w = PhotonMapping.Next w' ->
  exists info, Scene.intersect scene (PhotonMapping.ray w) = Some info /\
               origin (PhotonMapping.ray w') = position (surfaceInfo info).
Proof.
  unfold PhotonMapping.bounce.
  destruct (Scene.intersect scene (PhotonMapping.ray w)) as [info|]; [|discriminate].
  destruct (PhotonMapping.russian_roulette _ _ _ _) as [[t|] s]; [|discriminate].
  unfold PhotonMapping.scatter.
  destruct (sampleBRDF _ _ _ _) as [[[f dir] pdf] s'].
  intros [= <-]. exists info. auto.
Qed.

Lemma visited_connected (i n : nat) : forall (k j : nat) (w a b : Walk),
  visited i n k w !! j = Some a ->
  visited i n k w !! S j = Some b ->
  exists info, Scene.intersect scene (PhotonMapping.ray a) = Some info /\
               origin (PhotonMapping.ray b) = position (surfaceInfo info).
Proof.
  induction n as [|n IH]; intros k j w a b; cbn; [discriminate|].
  destruct (bounce i k w) as [w'|c w'] eqn:Hb.
  - destruct j as [|j]; cbn.
    + intros [= <-]. destruct n as [|n']; cbn; [discriminate|].
      intros [= <-]. exact (bounce_next_origin _ _ _ Hb).
    + apply IH.
  - destruct j as [|j]; cbn; discriminate.
Qed.

(** X9. The rays of a walk are connected: the first ray is the one spawned
    at the light, and every later ray starts at the position of the surface
    that the ray before it hit (so every iteration but the last met a
    surface). *)
Theorem walk_rays_are_connected (maxDepth : Z) (i : nat)
    (ph : list (option Photon)) (s : Sampler) :
  let seen := visited i (Z.to_nat maxDepth) 0 (emit ph s) in
  (forall w, seen !! 0 = Some w -> w = emit ph s) /\
  (forall (j : nat) (a b : Walk),
     seen !! j = Some a -> seen !! S j = Some b ->
     exists info, Scene.intersect scene (PhotonMapping.ray a) = Some info /\
                  origin (PhotonMapping.ray b) = position (surfaceInfo info)).
Proof.
  cbn zeta. split.
  - intros w. destruct (Z.to_nat maxDepth); cbn; [discriminate|]. intros [= <-]. reflexivity.
  - intros j a b. apply visited_connected.
Qed.

End Course.

(** ** The roulette *)

Section Roulette.

Context {Sampler : Type}.
Variable getNext1D : Sampler -> float * Sampler.

Lemma min_one_not_above_one (x : float) : F32.lt F32.one (F32.min x F32.one) = false.
Proof.
  unfold F32.min. destruct (F32.lt F32.one x) eqn:Hx; [reflexivity | exact Hx].
Qed.

Lemma max_is_one_of (x y : float) : F32.max x y = x \/ F32.max x y = y.
Proof. unfold F32.max. destruct (F32.lt x y); auto. Qed.

(** A number that is not above the sample, for a sample that is not below
    zero, is above zero unless it is NaN. *)
Lemma above_sample_is_positive (u p : float) :
  F32.ge u F32.zero = true -> F32.ge u p = false ->
  F32.lt F32.zero p = true \/ F32.is_nan p = true.
Proof.
  destruct u as [[]|[]| |[] mu eu], p as [[]|[]| |[] mp ep];
    cbn; intros Hu Hp; try discriminate; auto.
Qed.

(** A number that is not above zero is not above a sample that is not below
    zero, and [1] is not below it. *)
Lemma not_positive_is_below_sample (u p : float) :
  F32.ge u F32.zero = true -> F32.ge F32.zero p = true ->
  F32.ge u p = true /\ F32.lt F32.one p = false.
Proof.
  destruct u as [[]|[]| |[] mu eu], p as [[]|[]| |[] mp ep];
    cbn; intros Hu Hp; try discriminate; auto.
Qed.

(** X6. When the roulette lets a walk go on at a depth above 0, with a
    sample that is not below zero, the throughput has been divided
    componentwise by the survival probability, and that probability is
    above zero (or NaN) and not above one: the roulette never divides by
    zero. *)
Theorem roulette_divides_by_a_positive_probability (k : nat) (t t' : Vec3)
    (s s' : Sampler) :
  0 < k ->
  F32.ge (fst (getNext1D s)) F32.zero = true ->
  PhotonMapping.russian_roulette getNext1D k t s = (Some t', s') ->
  let p := PhotonMapping.russian_roulette_prob t in
  t' = vdiv t p /\ s' = snd (getNext1D s) /\
  F32.lt F32.one p = false /\
  (F32.lt F32.zero p = true \/ F32.is_nan p = true).
Proof.
  intros Hk Hu. unfold PhotonMapping.russian_roulette.
  destruct k as [|k]; [lia|]. cbn.
  destruct (getNext1D s) as [u s1]. cbn in Hu.
  destruct (F32.ge u (PhotonMapping.russian_roulette_prob t)) eqn:Hge; [discriminate|].
  intros [= <- <-]. split; [reflexivity|]. split; [reflexivity|]. split.
  - apply min_one_not_above_one.
  - exact (above_sample_is_positive _ _ Hu Hge).
Qed.

(** X7. A walk whose throughput components are all at most zero (none of
    them NaN) is stopped by the roulette at every depth above 0, for every
    sample that is not below zero; the sample is drawn all the same. *)
Theorem roulette_stops_a_dark_walk (k : nat) (t : Vec3) (s : Sampler) :
  0 < k ->
  F32.ge (fst (getNext1D s)) F32.zero = true ->
  F32.ge F32.zero (vx t) = true ->
  F32.ge F32.zero (vy t) = true ->
  F32.ge F32.zero (vz t) = true ->
  PhotonMapping.russian_roulette getNext1D k t s = (None, snd (getNext1D s)).
Proof.
  intros Hk Hu Hx Hy Hz. unfold PhotonMapping.russian_roulette.
  destruct k as [|k]; [lia|]. cbn.
  destruct (getNext1D s) as [u s1]. cbn in Hu |- *.
  assert (Hm : F32.ge F32.zero (F32.max (vx t) (F32.max (vy t) (vz t))) = true).
  { destruct (max_is_one_of (vx t) (F32.max (vy t) (vz t))) as [-> | ->]; [exact Hx|].
    destruct (max_is_one_of (vy t) (vz t)) as [-> | ->]; assumption. }
  destruct (not_positive_is_below_sample _ _ Hu Hm) as [Hge Hone].
  unfold PhotonMapping.russian_roulette_prob, F32.min. rewrite Hone, Hge. reflexivity.
Qed.

End Roulette.

(** ** [build] as a function of the sampler *)

Section BuildBySampler.

Context {Sampler : Type}.
Variable getNext1D : Sampler -> float * Sampler.
Variable scene : Scene.t Sampler.

Local Abbreviation walk := (PhotonMapping.walk getNext1D scene).
Local Abbreviation emit := (PhotonMapping.emit scene).
Local Abbreviation tracePhoton := (PhotonMapping.tracePhoton getNext1D scene).
Local Abbreviation before_walk := (PhotonMapping.before_walk getNext1D scene).
Local Abbreviation sampler_after := (PhotonMapping.sampler_after getNext1D scene).
Local Abbreviation photon_of_walk := (PhotonMapping.photon_of_walk getNext1D scene).

Lemma omap_id_fmap {A B : Type} (f : A -> option B) (l : list A) :
  omap id (f <$> l) = omap f l.
Proof.
  induction l as [|x l IH]; cbn; [reflexivity|].
  rewrite IH. destruct (f x); reflexivity.
Qed.

Lemma omap_none {A B : Type} (f : A -> option B) (l : list A) :
  (forall x, f x = None) -> omap f l = [].
Proof.
  intros Hf. induction l as [|x l IH]; cbn; [reflexivity|].
  rewrite Hf. exact IH.
Qed.

Lemma tracePhoton_sampler (maxDepth : Z) (st : list (option Photon) * Sampler) (i : nat) :
  snd (tracePhoton maxDepth st i) = sampler_after maxDepth (snd st).
Proof.
  unfold PhotonMapping.tracePhoton, PhotonMapping.sampler_after. cbn.
  destruct (walk_same_course getNext1D scene maxDepth i 0 (fst st) [] (snd st))
    as (_ & _ & (_ & _ & Hs) & _).
  exact Hs.
Qed.

Lemma before_walk_sampler (maxDepth : Z) (n : nat) (s : Sampler) (i : nat) :
  snd (before_walk maxDepth n s i) = Nat.iter i (sampler_after maxDepth) s.
Proof.
  unfold PhotonMapping.before_walk. induction i as [|i IH]; [reflexivity|].
  rewrite seq_S, foldl_app. cbn [foldl Nat.iter nat_rect].
  rewrite tracePhoton_sampler, IH. reflexivity.
Qed.

(** The array after the photon loop, slot by slot. *)
Lemma loop_slots (maxDepth : Z) (n : nat) (s : Sampler) :
  fst (before_walk maxDepth n s n)
  = (fun i => photon_of_walk maxDepth (Nat.iter i (sampler_after maxDepth) s)) <$> seq 0 n.
Proof.
  apply list_eq. intros i. rewrite list_lookup_fmap.
  destruct (decide (i < n)) as [Hi|Hi].
  - rewrite (lookup_seq_lt 0 n i Hi). cbn.
    rewrite (@slot_after_loop _ getNext1D scene maxDepth n s i Hi).
    assert (Hempty : fst (before_walk maxDepth n s i) !! i = Some None).
    { unfold PhotonMapping.before_walk.
      rewrite tracePhotons_other by (rewrite in_seq; lia).
      cbn. apply lookup_replicate_2. exact Hi. }
    unfold PhotonMapping.tracePhoton. cbn.
    rewrite (@slot_after_walk _ getNext1D scene maxDepth i _ _ Hempty).
    destruct (walk_same_course getNext1D scene maxDepth i 0
                (fst (before_walk maxDepth n s i)) []
                (snd (before_walk maxDepth n s i))) as (_ & _ & _ & ->).
    rewrite before_walk_sampler. reflexivity.
  - rewrite (lookup_seq_ge 0 n i) by lia. cbn.
    apply lookup_ge_None_2. unfold PhotonMapping.before_walk.
    rewrite tracePhotons_length. cbn. rewrite length_replicate. lia.
Qed.

(** What [build] returns for a photon count that is not negative. *)
Lemma build_by_sampler (pm : PhotonMapping.t) (s : Sampler) :
  (PhotonMapping.nPhotons pm <? 0)%Z = false ->
  PhotonMapping.build getNext1D scene pm s
  = Returned
      (PhotonMapping.mk (PhotonMapping.nPhotons pm) (PhotonMapping.nDensityEstimation pm)
         (PhotonMapping.maxDepth pm)
         (PhotonMap.mk
            (PhotonMap.photons (PhotonMapping.photonMap pm)
             ++ omap (fun i => photon_of_walk (PhotonMapping.maxDepth pm)
                                 (Nat.iter i (sampler_after (PhotonMapping.maxDepth pm)) s))
                     (seq 0 (Z.to_nat (PhotonMapping.nPhotons pm))))
            true),
       Nat.iter (Z.to_nat (PhotonMapping.nPhotons pm))
                (sampler_after (PhotonMapping.maxDepth pm)) s).
Proof.
  intros Hn. unfold PhotonMapping.build. rewrite Hn.
  set (n := Z.to_nat (PhotonMapping.nPhotons pm)).
  set (md := PhotonMapping.maxDepth pm).
  change (foldl (tracePhoton md) (replicate n None, s) (seq 0 n))
    with (before_walk md n s n).
  pose proof (loop_slots md n s) as Hslots.
  pose proof (before_walk_sampler md n s n) as Hs.
  destruct (before_walk md n s n) as [slots s1]. cbn in Hslots, Hs. subst slots s1.
  rewrite addPhotons_spec, omap_id_fmap. reflexivity.
Qed.

(** X2. When [build] returns, the photon map holds what it held before,
    followed, in walk order, by the photon of every walk that left one: walk
    [i] starts from the sampler that the walks before it left behind, and
    its photon is the last of its diffuse hits. The sampler handed back is
    the one the last walk left; the photon map is finalised and the
    configuration is unchanged. *)
Theorem build_appends_the_photons_of_the_walks
    (pm pm' : PhotonMapping.t) (s s' : Sampler) :
  PhotonMapping.build getNext1D scene pm s = Returned (pm', s') ->
  let n := Z.to_nat (PhotonMapping.nPhotons pm) in
  let maxDepth := PhotonMapping.maxDepth pm in
  PhotonMap.photons (PhotonMapping.photonMap pm')
  = PhotonMap.photons (PhotonMapping.photonMap pm)
    ++ omap (fun i => photon_of_walk maxDepth (Nat.iter i (sampler_after maxDepth) s))
            (seq 0 n) /\
  s' = Nat.iter n (sampler_after maxDepth) s /\
  PhotonMap.built (PhotonMapping.photonMap pm') = true /\
  PhotonMapping.nPhotons pm' = PhotonMapping.nPhotons pm /\
  PhotonMapping.nDensityEstimation pm' = PhotonMapping.nDensityEstimation pm /\
  PhotonMapping.maxDepth pm' = PhotonMapping.maxDepth pm.
Proof.
  destruct (PhotonMapping.nPhotons pm <? 0)%Z eqn:Hn.
  - unfold PhotonMapping.build. rewrite Hn. discriminate.
  - rewrite (build_by_sampler pm s Hn). intros [= <- <-]. cbn. auto 10.
Qed.

(** *** Walks that leave nothing *)

Lemma no_depth_no_photon (maxDepth : Z) (s : Sampler) :
  (maxDepth <= 0)%Z ->
  photon_of_walk maxDepth s = None /\
  sampler_after maxDepth s = PhotonMapping.sampler (emit [] s).
Proof.
  intros Hd. unfold PhotonMapping.photon_of_walk, PhotonMapping.sampler_after,
    PhotonMapping.diffuse_hits, PhotonMapping.walk.
  replace (Z.to_nat maxDepth) with 0 by lia. split; reflexivity.
Qed.

Lemma photon_map_build_eta (m : PhotonMap.t) :
  PhotonMap.mk (PhotonMap.photons m ++ []) true = PhotonMap.build m.
Proof. destruct m as [ps b]. cbn. rewrite app_nil_r. reflexivity. Qed.

(** X4. With a [maxDepth] of zero or less no iteration of the bounce loop
    runs: a walk ends in the state in which it was emitted, and [build]
    still samples a light, a point and a direction for each of the
    [nPhotons] walks but adds no photon to the photon map. *)
Theorem no_depth_no_photons (pm : PhotonMapping.t) (s : Sampler) :
  (PhotonMapping.maxDepth pm <= 0)%Z ->
  (0 <= PhotonMapping.nPhotons pm)%Z ->
  (forall i ph s0,
     walk (PhotonMapping.maxDepth pm) i ph s0
     = PhotonMapping.mkFinish None 0 (emit ph s0)) /\
  (forall s0, sampler_after (PhotonMapping.maxDepth pm) s0
              = PhotonMapping.sampler (emit [] s0)) /\
  PhotonMapping.build getNext1D scene pm s
  = Returned
      (PhotonMapping.mk (PhotonMapping.nPhotons pm) (PhotonMapping.nDensityEstimation pm)
         (PhotonMapping.maxDepth pm) (PhotonMap.build (PhotonMapping.photonMap pm)),
       Nat.iter (Z.to_nat (PhotonMapping.nPhotons pm))
                (sampler_after (PhotonMapping.maxDepth pm)) s).
Proof.
  intros Hd Hn. split; [|split].
  - intros i ph s0. unfold PhotonMapping.walk.
    replace (Z.to_nat (PhotonMapping.maxDepth pm)) with 0 by lia. reflexivity.
  - intros s0. exact (proj2 (no_depth_no_photon s0 Hd)).
  - rewrite build_by_sampler by (apply Z.ltb_ge; exact Hn).
    rewrite omap_none by (intros i; exact (proj1 (no_depth_no_photon _ Hd))).
    rewrite photon_map_build_eta. reflexivity.
Qed.

Lemma no_diffuse_no_hit (w : @PhotonMapping.Walk Sampler) :
  PhotonMapping.no_diffuse_surface scene -> PhotonMapping.diffuse_hit scene w = None.
Proof.
  intros Hnd. unfold PhotonMapping.diffuse_hit.
  destruct (Scene.intersect scene (PhotonMapping.ray w)) as [info|] eqn:Hi; [|reflexivity].
  specialize (Hnd _ _ Hi). destruct (getBxDFType (hitPrimitive info)); [contradiction | reflexivity].
Qed.

(** X5. In a scene where no ray meets a diffuse surface, a walk leaves the
    whole photon array as it found it, and [build] adds no photon to the
    photon map, whatever [nPhotons] and [maxDepth] are. *)
Theorem no_diffuse_surface_no_photons (pm : PhotonMapping.t) (s : Sampler) :
  PhotonMapping.no_diffuse_surface scene ->
  (0 <= PhotonMapping.nPhotons pm)%Z ->
  (forall maxDepth i ph s0,
     PhotonMapping.photons (PhotonMapping.final (walk maxDepth i ph s0)) = ph) /\
  PhotonMapping.build getNext1D scene pm s
  = Returned
      (PhotonMapping.mk (PhotonMapping.nPhotons pm) (PhotonMapping.nDensityEstimation pm)
         (PhotonMapping.maxDepth pm) (PhotonMap.build (PhotonMapping.photonMap pm)),
       Nat.iter (Z.to_nat (PhotonMapping.nPhotons pm))
                (sampler_after (PhotonMapping.maxDepth pm)) s).
Proof.
  intros Hnd Hn. split.
  - intros maxDepth i ph s0. unfold PhotonMapping.walk.
    rewrite bounces_photons, omap_none by (intros w; apply no_diffuse_no_hit, Hnd).
    cbn. apply emit_photons.
  - rewrite build_by_sampler by (apply Z.ltb_ge; exact Hn).
    rewrite omap_none.
    + rewrite photon_map_build_eta. reflexivity.
    + intros i. unfold PhotonMapping.photon_of_walk, PhotonMapping.diffuse_hits.
      rewrite omap_none by (intros w; apply no_diffuse_no_hit, Hnd). reflexivity.
Qed.

End BuildBySampler.

(** ** primitive.h: sampling and evaluation *)

Section Adapter.

Context {Sampler Triangle : Type}.
Variables worldToLocal localToWorld : Vec3 -> Vec3 -> Vec3 -> Vec3 -> Vec3.



End Adapter.

(** ** The further statements on the concrete scenes *)

Section FurtherExamples.

Import Examples.

(** X2, on [box]: [build] returns for two photons, and the photon map holds
    the photons of the two walks. *)
Lemma box_appends_witness :
  PhotonMapping.build nextOf box (PhotonMapping.new 2 0 2) [quarter; half]
  = Returned (fst box_built, snd box_built) /\
  PhotonMap.photons (PhotonMapping.photonMap (fst box_built))
  = [] ++ omap (fun i => PhotonMapping.photon_of_walk nextOf box 2
                           (Nat.iter i (PhotonMapping.sampler_after nextOf box 2)
                                     [quarter; half]))
               (seq 0 2).
Proof.
  assert (H : PhotonMapping.build nextOf box (PhotonMapping.new 2 0 2) [quarter; half]
              = Returned (fst box_built, snd box_built))
    by (vm_compute; reflexivity).
  split; [exact H|].
  exact (proj1 (@build_appends_the_photons_of_the_walks _ nextOf box _ _ _ _ H)).
Defined.

(** X3, on [box]: the walk of depth 1 has the ceiling hit only; the walk of
    depth 2 has it first. *)
Lemma box_depth_witness :
  (1 <= 2)%Z /\
  exists more,
    PhotonMapping.diffuse_hits nextOf box 2 0 [None] [quarter]
    = PhotonMapping.diffuse_hits nextOf box 1 0 [None] [quarter] ++ more.
Proof.
  split; [lia|].
  exact (proj2 (proj2 (@maxDepth_only_prolongs _ nextOf box 1 2 0 [None] [quarter]
                         ltac:(lia)))).
Defined.

(** X4, on [box] with depth 0: two lights are sampled, no photon is added. *)
Lemma box_no_depth_witness :
  (PhotonMapping.maxDepth (PhotonMapping.new 2 0 0) <= 0)%Z /\
  (0 <= PhotonMapping.nPhotons (PhotonMapping.new 2 0 0))%Z /\
  PhotonMapping.build nextOf box (PhotonMapping.new 2 0 0) [quarter]
  = Returned
      (PhotonMapping.mk 2 0 0 (PhotonMap.build PhotonMap.empty),
       Nat.iter 2 (PhotonMapping.sampler_after nextOf box 0) [quarter]).
Proof.
  split; [cbn; lia|]. split; [cbn; lia|].
  exact (proj2 (proj2 (@no_depth_no_photons _ nextOf box (PhotonMapping.new 2 0 0) [quarter]
                         ltac:(cbn; lia) ltac:(cbn; lia)))).
Defined.

Lemma hall_has_no_diffuse_surface : PhotonMapping.no_diffuse_surface hall.
Proof.
  intros r info. cbn. unfold between.
  destruct (F32.lt F32.zero (vy (direction r))).
  - intros [= <-]. discriminate.
  - destruct (F32.lt (vy (direction r)) F32.zero); [|discriminate].
    intros [= <-]. discriminate.
Qed.

(** X5, on [hall]: between two mirrors no photon is stored. *)
Lemma hall_witness :
  PhotonMapping.no_diffuse_surface hall /\
  (0 <= PhotonMapping.nPhotons (PhotonMapping.new 2 0 3))%Z /\
  PhotonMapping.build nextOf hall (PhotonMapping.new 2 0 3) [quarter; half]
  = Returned
      (PhotonMapping.mk 2 0 3 (PhotonMap.build PhotonMap.empty),
       Nat.iter 2 (PhotonMapping.sampler_after nextOf hall 3) [quarter; half]).
Proof.
  split; [exact hall_has_no_diffuse_surface|]. split; [cbn; lia|].
  exact (proj2 (@no_diffuse_surface_no_photons _ nextOf hall (PhotonMapping.new 2 0 3)
                  [quarter; half] hall_has_no_diffuse_surface ltac:(cbn; lia))).
Defined.

(** X6, at depth 1 with throughput (1/2, 1/2, 1/2) and the sample 1/4: the
    walk goes on, divided by a probability above zero. *)
Lemma roulette_witness :
  0 < 1 /\
  F32.ge (fst (nextOf [quarter])) F32.zero = true /\
  PhotonMapping.russian_roulette nextOf 1 (Vec3_fill half) [quarter] = (Some v111, []) /\
  (F32.lt F32.zero (PhotonMapping.russian_roulette_prob (Vec3_fill half)) = true \/
   F32.is_nan (PhotonMapping.russian_roulette_prob (Vec3_fill half)) = true).
Proof.
  assert (Hr : PhotonMapping.russian_roulette nextOf 1 (Vec3_fill half) [quarter]
               = (Some v111, [])) by (vm_compute; reflexivity).
  split; [lia|]. split; [vm_compute; reflexivity|]. split; [exact Hr|].
  exact (proj2 (proj2 (proj2
           (@roulette_divides_by_a_positive_probability _ nextOf 1 (Vec3_fill half) v111
              [quarter] [] ltac:(lia) ltac:(vm_compute; reflexivity) Hr)))).
Defined.

(** X7, at depth 1 with throughput (0, 0, 0) and the sample 1/4: the walk
    is stopped. *)
Lemma dark_roulette_witness :
  0 < 1 /\
  F32.ge (fst (nextOf [quarter])) F32.zero = true /\
  F32.ge F32.zero (vx v000) = true /\
  F32.ge F32.zero (vy v000) = true /\
  F32.ge F32.zero (vz v000) = true /\
  PhotonMapping.russian_roulette nextOf 1 v000 [quarter] = (None, snd (nextOf [quarter])).
Proof.
  split; [lia|]. repeat (split; [vm_compute; reflexivity|]).
  exact (@roulette_stops_a_dark_walk _ nextOf 1 v000 [quarter] ltac:(lia)
           ltac:(vm_compute; reflexivity) ltac:(vm_compute; reflexivity)
           ltac:(vm_compute; reflexivity) ltac:(vm_compute; reflexivity)).
Defined.



End FurtherExamples.
